(** * Indexing and metadata inheritance of [bids/layout/index.py]

    A shallow embedding of the directory walk ([index_layout], [index_dir],
    [_index_file], [_extract_entities]) and of the metadata pass
    ([_index_metadata]), followed by the properties of the specification
    that concern them. *)

From Stdlib Require Import Ascii String ZArith Lia.
From stdpp Require Import base option list strings gmap fin_maps pretty.

Local Open Scope string_scope.
Local Open Scope list_scope.

(** ** Paths: the fragment of [posixpath] the module calls *)

Module Path.

Definition sep : ascii := "/"%char.

Definition is_sep (c : ascii) : bool := Ascii.eqb c sep.

(** [s.startswith(p)] *)
Definition startswith (s p : string) : bool := String.prefix p s.

(** [s.endswith(p)] *)
Definition endswith (s p : string) : bool :=
  String.prefix (String.rev p) (String.rev s).

(** [os.path.join(a, b)] with two arguments: an absolute [b] replaces [a];
    a separator is inserted unless [a] is empty or already ends with one. *)
Definition join (a b : string) : string :=
  if startswith b "/" then b
  else if bool_decide (a = "") || endswith a "/" then a +:+ b
  else a +:+ "/" +:+ b.

(** On the reversed path: drop what follows the last separator. *)
Fixpoint drop_basename (r : list ascii) : list ascii :=
  match r with
  | [] => []
  | c :: r' => if is_sep c then r else drop_basename r'
  end.

(** On the reversed head: [rstrip(sep)]. *)
Fixpoint strip_seps (r : list ascii) : list ascii :=
  match r with
  | [] => []
  | c :: r' => if is_sep c then strip_seps r' else r
  end.

(** [os.path.dirname] on a list of characters:
    [i = p.rfind(sep) + 1; head = p[:i];
     if head and head != sep*len(head): head = head.rstrip(sep)]. *)
Definition dirname_chars (p : list ascii) : list ascii :=
  let rhead := drop_basename (reverse p) in
  if forallb is_sep rhead then reverse rhead
  else reverse (strip_seps rhead).

Definition dirname (p : string) : string :=
  string_of_list_ascii (dirname_chars (list_ascii_of_string p)).

End Path.

(** ** Python values carried by tags and JSON payloads

    Scalars only: a nested JSON value is an opaque leaf for this module, and
    floating-point numbers are left out of the embedding. *)

Inductive pyval : Type :=
  | PNone
  | PBool (b : bool)
  | PInt (z : Z)
  | PStr (s : string).

Global Instance pyval_eq_dec : EqDecision pyval.
Proof. solve_decision. Defined.

(** [str(v)], also what ["{}".format(v)] prints. *)
Definition py_str (v : pyval) : string :=
  match v with
  | PNone => "None"
  | PBool true => "True"
  | PBool false => "False"
  | PInt z => pretty z
  | PStr s => s
  end.

(** [a == b]: [bool] is a subclass of [int], other types never mix. *)
Definition py_eq (a b : pyval) : bool :=
  match a, b with
  | PNone, PNone => true
  | PBool x, PBool y => bool_decide (x = y)
  | PBool x, PInt z | PInt z, PBool x => bool_decide (Z.b2z x = z)
  | PInt x, PInt y => bool_decide (x = y)
  | PStr x, PStr y => bool_decide (x = y)
  | _, _ => false
  end.

(** ** Insertion-ordered dictionaries

    A Python [dict] iterates in insertion order, and both the entity loop and
    the tag loop depend on it; keys are kept unique by [set]. *)

Module Dict.

Definition t (V : Type) : Type := list (string * V).

Section Ops.
Context {V : Type}.

Fixpoint get (k : string) (d : t V) : option V :=
  match d with
  | [] => None
  | (k', v) :: d' => if bool_decide (k' = k) then Some v else get k d'
  end.

Definition mem (k : string) (d : t V) : bool :=
  match get k d with Some _ => true | None => false end.

(** [d[k] = v]: a present key keeps its position. *)
Fixpoint set (k : string) (v : V) (d : t V) : t V :=
  match d with
  | [] => [(k, v)]
  | (k', v') :: d' =>
      if bool_decide (k' = k) then (k, v) :: d' else (k', v') :: set k v d'
  end.

(** [d.update(other)] *)
Definition update (d other : t V) : t V :=
  fold_left (fun acc kv => set kv.1 kv.2 acc) other d.

(** [d.pop(k, None)]: the value (if any) and the remaining dictionary. *)
Fixpoint remove (k : string) (d : t V) : t V :=
  match d with
  | [] => []
  | (k', v) :: d' =>
      if bool_decide (k' = k) then d' else (k', v) :: remove k d'
  end.

Definition keys (d : t V) : list string := d.*1.
Definition values (d : t V) : list V := d.*2.
End Ops.

End Dict.

(** ** Records of [bids/layout/models.py] *)

(** Modelled from the spec: the class [Entity] of [models.py], which is not
    part of the sources: a unique name, a match rule (pattern and declared
    type), a [mandatory] flag and an [is_metadata] flag. *)
Record Entity : Type := mkEntity {
  ent_name : string;
  ent_pattern : option string;
  ent_mandatory : bool;
  ent_dtype : string;
  ent_is_metadata : bool
}.

Global Instance Entity_eq_dec : EqDecision Entity.
Proof. solve_decision. Defined.

(** [Entity(md_key, is_metadata=True)]: every other field at its default. *)
Definition metadata_entity (md_key : string) : Entity :=
  mkEntity md_key None false "str" true.

(** [Config]: a named set of entities, keyed by name, in declaration order. *)
Record Config : Type := mkConfig {
  cfg_name : string;
  cfg_entities : Dict.t Entity
}.

(** [BIDSFile]: the path, its directory and the derived mapping from entity
    names to values. *)
Record BIDSFile : Type := mkBIDSFile {
  bf_path : string;
  bf_dirname : string;
  bf_entities : Dict.t pyval
}.

(** [BIDSFile(abs_fn)] *)
Definition new_BIDSFile (abs_fn : string) : BIDSFile :=
  mkBIDSFile abs_fn (Path.dirname abs_fn) [].

(** [Tag(file, entity, value, dtype)]; the file is referred to by its path. *)
Record Tag : Type := mkTag {
  tag_file : string;
  tag_entity : Entity;
  tag_value : pyval;
  tag_dtype : option string
}.

Inductive assoc_kind : Type := Metadata | Child | Parent.

Global Instance assoc_kind_eq_dec : EqDecision assoc_kind.
Proof. solve_decision. Defined.

(** [FileAssociation(src, dst, kind)] *)
Record FileAssociation : Type := mkAssoc {
  fa_src : string;
  fa_dst : string;
  fa_kind : assoc_kind
}.

Inductive dbrecord : Type :=
  | RFile (bf : BIDSFile)
  | RTag (t : Tag)
  | REntity (e : Entity)
  | RAssoc (a : FileAssociation).

(** ** The session: pending records and committed records

    [commit] here moves the pending records to the stored ones; the
    uniqueness the store enforces when it does so, and the exception a
    refused commit raises, are in [store_accepts] and
    [index_layout_on_store] below. *)

Record session : Type := mkSession {
  s_new : list dbrecord;
  s_stored : list dbrecord
}.

Module Session.
Definition empty : session := mkSession [] [].
Definition add (r : dbrecord) (s : session) : session :=
  mkSession (s_new s ++ [r]) (s_stored s).
Definition add_all (rs : list dbrecord) (s : session) : session :=
  mkSession (s_new s ++ rs) (s_stored s).
Definition commit (s : session) : session :=
  mkSession [] (s_stored s ++ s_new s).
(** Every record handed to the session, in the order of the calls. *)
Definition records (s : session) : list dbrecord := s_stored s ++ s_new s.
End Session.

Definition files_of (rs : list dbrecord) : list BIDSFile :=
  omap (fun r => match r with RFile bf => Some bf | _ => None end) rs.
Definition tags_of (rs : list dbrecord) : list Tag :=
  omap (fun r => match r with RTag t => Some t | _ => None end) rs.
Definition entities_of (rs : list dbrecord) : list Entity :=
  omap (fun r => match r with REntity e => Some e | _ => None end) rs.
Definition assocs_of (rs : list dbrecord) : list FileAssociation :=
  omap (fun r => match r with RAssoc a => Some a | _ => None end) rs.

(** ** The layout and the collaborators the module calls *)

(** The attributes of [layout] read by the module.  [force_index] is the
    list of patterns of the layout: the module only tests its truth value and
    passes it to [check_path_matches_patterns], so it is kept as these two
    observations. *)
Record Layout : Type := mkLayout {
  root : string;
  config : Dict.t Config;
  config_filename : string;
  force_index_truthy : bool;
  (** [check_path_matches_patterns(d, layout.force_index)] *)
  force_index_matches : string -> bool;
  _validate_file : string -> bool;
  _validate_dir : string -> bool
}.

(** Calls that leave the module: [Entity.match_file] ([PNone] is Python's
    [None], no match), [Config.load], and [json.load] on an opened path:
    the parsed object, or [None] when [json.load] raises (the exception
    propagates and aborts the run).  The content of a sidecar is a JSON
    object, as the payload format requires; a file whose content is another
    JSON value (a number, a string, a list, [null]) has no counterpart in
    this embedding. *)
Record Externals : Type := mkExternals {
  match_file : Entity -> BIDSFile -> pyval;
  load_config : string -> Config;
  json_load : string -> option (Dict.t pyval)
}.

Definition is_none (v : pyval) : bool :=
  match v with PNone => true | _ => false end.

(** A directory as [os.walk] lists it: its file names and its
    subdirectories (name and content), each in listing order. *)
#[local] Set Warnings "-register-all".
Inductive fsdir : Type :=
  | FsDir (filenames : list string) (dirnames : list (string * fsdir)).

(** [l.remove(x)]: the first occurrence only. *)
Fixpoint list_remove_first (x : string) (l : list string) : list string :=
  match l with
  | [] => []
  | y :: l' => if bool_decide (y = x) then l' else y :: list_remove_first x l'
  end.

(** ** Entity extraction *)

Section Extraction.
Variable X : Externals.

(** The loop of [_extract_entities], with [break] returning what was
    accumulated. *)
Fixpoint extract_loop (bidsfile : BIDSFile) (es : list Entity)
    (match_vals : Dict.t (Entity * pyval)) : Dict.t (Entity * pyval) :=
  match es with
  | [] => match_vals
  | e :: es' =>
      let m := match_file X e bidsfile in
      if is_none m && ent_mandatory e then match_vals
      else if negb (is_none m)
           then extract_loop bidsfile es'
                  (Dict.set (ent_name e) (e, m) match_vals)
           else extract_loop bidsfile es' match_vals
  end.

Definition _extract_entities (bidsfile : BIDSFile)
    (entities : Dict.t Entity) : Dict.t (Entity * pyval) :=
  extract_loop bidsfile (Dict.values entities) [].

(** The loop written inside [_index_file], as one step per entity over the
    loop state: the dictionary built so far and whether [break] was
    taken. *)
Definition inline_step (bf : BIDSFile)
    (st : Dict.t (Entity * pyval) * bool) (e : Entity)
    : Dict.t (Entity * pyval) * bool :=
  if st.2 then st
  else
    let m := match_file X e bf in
    if is_none m && ent_mandatory e then (st.1, true)
    else if negb (is_none m)
         then (Dict.set (ent_name e) (e, m) st.1, false)
         else st.

Definition inline_match_vals (bf : BIDSFile) (entities : Dict.t Entity)
    : Dict.t (Entity * pyval) :=
  (fold_left (inline_step bf) (Dict.values entities) ([], false)).1.

(** [Tag(bf, ent, str(val), ent._dtype)] for every item of [match_vals]. *)
Definition filename_tags (bf : BIDSFile)
    (match_vals : Dict.t (Entity * pyval)) : list dbrecord :=
  (fun kv => RTag (mkTag (bf_path bf) kv.2.1
                    (PStr (py_str kv.2.2)) (Some (ent_dtype kv.2.1))))
  <$> match_vals.
End Extraction.

(** ** The directory walk of [index_layout] *)

(** The session together with the log of the [os.walk] calls: the directory
    walked and the [force_index] argument [index_dir] held at that call. *)
Record walk_state : Type := mkWalk {
  ws_session : session;
  ws_walked : list (string * bool)
}.

Section IndexLayout.
Variable L : Layout.
Variable X : Externals.
(** The [force_index] argument of [index_layout]: the variable the nested
    function [_index_file] closes over. *)
Variable force_index : bool.

Definition _index_file (f dirpath : string) (entities : Dict.t Entity)
    (s : session) : option BIDSFile * session :=
  let abs_fn := Path.join dirpath f in
  if negb force_index && negb (_validate_file L abs_fn) then (None, s)
  else
    let bf := new_BIDSFile abs_fn in
    let s := Session.add (RFile bf) s in
    let match_vals := inline_match_vals X bf entities in
    (Some bf,
     fold_left (fun s tag => Session.add tag s) (filename_tags bf match_vals) s).

(** [config_entities]: every config of the chain merged in order. *)
Definition merge_entities (config : list Config) : Dict.t Entity :=
  fold_left (fun d c => Dict.update d (cfg_entities c)) config [].

(** The loop over [dirnames] at the end of [index_dir]; [recurse] is the
    recursive call [index_dir(d, list(config), path, force_index)] on the
    content of the subdirectory.  The assignment [force_index = True]
    stays in force for the directories listed after the one that
    matched. *)
Fixpoint index_subdirs
    (recurse : fsdir -> string -> bool -> walk_state -> walk_state)
    (dirpath : string) (ds : list (string * fsdir)) (force_index : bool)
    (w : walk_state) {struct ds} : walk_state :=
  match ds with
  | [] => w
  | entry :: ds' =>
      let d := Path.join dirpath entry.1 in
      if Path.startswith d (Path.join (root L) "derivatives")
      then index_subdirs recurse dirpath ds' force_index w
      else if force_index_matches L d
      then index_subdirs recurse dirpath ds' true (recurse entry.2 d true w)
      else if negb (_validate_dir L d) && negb (force_index_truthy L)
      then index_subdirs recurse dirpath ds' force_index w
      else index_subdirs recurse dirpath ds' force_index
             (recurse entry.2 d force_index w)
  end.

(** The files of one directory, then the commit. *)
Definition index_files (dirpath : string) (filenames : list string)
    (config_entities : Dict.t Entity) (s : session) : session :=
  Session.commit
    (fold_left (fun s f => (_index_file f dirpath config_entities s).2)
               filenames s).

(** [index_dir]: its parameter [force_index] shadows the one of
    [index_layout], as in the source; only the recursion reads it.  The
    layout's root is an absolute path, so that [abs_path] names the
    directory being walked and the configuration file is looked up among
    its entries. *)
Fixpoint index_dir (t : fsdir) (path : string) (config : list Config)
    (parent : option string) (force_index : bool) (w : walk_state)
    {struct t} : walk_state :=
  match t with
  | FsDir filenames dirnames =>
      let abs_path := Path.join (root L) path in
      let layout_file := config_filename L in
      let config_file := Path.join abs_path layout_file in
      let config :=
        if bool_decide (layout_file ∈ filenames ++ dirnames.*1)
        then config ++ [load_config X config_file] else config in
      let config_entities := merge_entities config in
      (* for (dirpath, dirnames, filenames) in os.walk(path): ... break *)
      let w := mkWalk (ws_session w) (ws_walked w ++ [(path, force_index)]) in
      let dirpath := path in
      let filenames :=
        if bool_decide (layout_file ∈ filenames)
        then list_remove_first layout_file filenames else filenames in
      let w :=
        mkWalk (index_files dirpath filenames config_entities (ws_session w))
               (ws_walked w) in
      index_subdirs
        (fun sub d force_index w =>
           index_dir sub d config (Some path) force_index w)
        dirpath dirnames force_index w
  end.

(** The walk started by [index_layout] on the tree found at the root. *)
Definition index_walk (fs : fsdir) : walk_state :=
  index_dir fs (root L) (Dict.values (config L)) None force_index
            (mkWalk Session.empty []).
End IndexLayout.

(** ** The metadata pass [_index_metadata] *)

(** One element of the store [file_data]: the entities of a file apart from
    suffix and extension, its payload (JSON files only) and its path. *)
Definition fd_entry : Type := Dict.t pyval * option (Dict.t pyval) * string.

(** [d.pop(k, None)], the value part. *)
Definition pop_value (k : string) (d : Dict.t pyval) : pyval :=
  default PNone (Dict.get k d).

(** [d[k]] for a key that the caller has checked to be present. *)
Definition getitem (d : Dict.t pyval) (k : string) : pyval :=
  default PNone (Dict.get k d).

(** The test both inner loops of the ancestry walk apply to a candidate:
    no key outside those of the file, and equal values on every key. *)
Definition consumed_by (file_ents ents : Dict.t pyval) : bool :=
  let keys := Dict.keys ents in
  if existsb (fun k => negb (Dict.mem k file_ents)) keys then false
  else forallb (fun name => py_eq (getitem ents name) (getitem file_ents name))
               keys.

(** The state of the pass: the session and the dictionary [all_entities]. *)
Record md_state : Type := mkMd {
  md_session : session;
  all_entities : gmap string Entity
}.

(** The consecutive pairs of a visitation-ordered list of paths, as
    [Child]/[Parent] associations: [enumerate] with the test
    [(i + 1) < n_pl]. *)
Definition chain (paths : list string) : list dbrecord :=
  let n_pl := length paths in
  mjoin (imap (fun i src =>
    if bool_decide (i + 1 < n_pl)%nat
    then match paths !! (i + 1) with
         | Some other => [RAssoc (mkAssoc src other Child);
                          RAssoc (mkAssoc other src Parent)]
         | None => []
         end
    else []) paths).

(** [file_md = {}; for pl, js_file in payloads[::-1]: file_md.update(pl)].
    A payload that is [None] makes [update] raise. *)
Definition consolidate (payloads : list (option (Dict.t pyval) * string))
    : option (Dict.t pyval) :=
  foldl (fun acc p => file_md ← acc; pl ← p.1; Some (Dict.update file_md pl))
        (Some []) (reverse payloads).

(** The body of the loop over the items of [file_md]. *)
Definition add_metadata_tag (bf : BIDSFile) (st : md_state)
    (item : string * pyval) : md_state :=
  let md_key := item.1 in
  let md_val := item.2 in
  let st :=
    if bool_decide (is_Some (all_entities st !! md_key)) then st
    else mkMd (Session.add (REntity (metadata_entity md_key)) (md_session st))
              (<[md_key := metadata_entity md_key]> (all_entities st)) in
  match all_entities st !! md_key with
  | Some ent =>
      mkMd (Session.add (RTag (mkTag (bf_path bf) ent md_val None))
                        (md_session st))
           (all_entities st)
  | None => st
  end.

Section Metadata.
Variable X : Externals.

(** The first loop: one file added to [file_data]. *)
Definition store_file (file_data : gmap string (gmap string (list fd_entry)))
    (bf : BIDSFile) : option (gmap string (gmap string (list fd_entry))) :=
  let file_ents := bf_entities bf in
  let suffix := pop_value "suffix" file_ents in
  let file_ents := Dict.remove "suffix" file_ents in
  let ext := pop_value "extension" file_ents in
  let file_ents := Dict.remove "extension" file_ents in
  if negb (is_none suffix) && negb (is_none ext) then
    let key := py_str ext +:+ "/" +:+ py_str suffix in
    let by_dir := default ∅ (file_data !! key) in
    payload ← (if py_eq ext (PStr "json")
               then Some <$> json_load X (bf_path bf)
               else Some None);
    let to_store := (file_ents, payload, bf_path bf) in
    Some (<[key := <[bf_dirname bf :=
                       default [] (by_dir !! bf_dirname bf) ++ [to_store]]>
                    by_dir]> file_data)
  else Some file_data.

Definition build_file_data (all_files : list BIDSFile)
    : option (gmap string (gmap string (list fd_entry))) :=
  foldl (fun acc bf => file_data ← acc; store_file file_data bf)
        (Some ∅) all_files.
End Metadata.

(** [file_data.get(key, {}).get(dirname, [])] *)
Definition fd_lookup (file_data : gmap string (gmap string (list fd_entry)))
    (key dirname : string) : list fd_entry :=
  default [] (by_dir ← file_data !! key; by_dir !! dirname).

(** One round of the [while True] loop at directory [dirname]. *)
Definition visit_dir (file_data : gmap string (gmap string (list fd_entry)))
    (file_ents : Dict.t pyval) (json_key ext_key dirname : string)
    (acc : list (option (Dict.t pyval) * string) * list string)
    : list (option (Dict.t pyval) * string) * list string :=
  let json_data := fd_lookup file_data json_key dirname in
  let payloads :=
    acc.1 ++ ((fun e : fd_entry => (e.1.2, e.2))
              <$> filter (fun e => consumed_by file_ents e.1.1) json_data) in
  let candidates := fd_lookup file_data ext_key dirname in
  let ancestors :=
    acc.2 ++ ((fun e : fd_entry => e.2)
              <$> filter (fun e => consumed_by file_ents e.1.1) candidates) in
  (payloads, ancestors).

(** The loop itself; [fuel] bounds the rounds still allowed after this
    one. *)
Fixpoint walk_up (fuel : nat)
    (file_data : gmap string (gmap string (list fd_entry)))
    (file_ents : Dict.t pyval) (json_key ext_key dirname : string)
    (acc : list (option (Dict.t pyval) * string) * list string)
    : list (option (Dict.t pyval) * string) * list string :=
  let acc := visit_dir file_data file_ents json_key ext_key dirname acc in
  let parent := Path.dirname dirname in
  if bool_decide (parent = dirname) then acc
  else match fuel with
       | O => acc
       | S fuel' =>
           walk_up fuel' file_data file_ents json_key ext_key parent acc
       end.

(** The ancestry walk of one file: [os.path.dirname] shortens a path it
    changes, so the length of the starting directory bounds the rounds. *)
Definition collect (file_data : gmap string (gmap string (list fd_entry)))
    (file_ents : Dict.t pyval) (json_key ext_key dirname : string)
    : list (option (Dict.t pyval) * string) * list string :=
  walk_up (String.length dirname) file_data file_ents json_key ext_key
          dirname ([], []).

(** [payloads] and [ancestors] of a file, or [None] when the file is skipped
    for want of a suffix or an extension. *)
Definition ancestry (file_data : gmap string (gmap string (list fd_entry)))
    (bf : BIDSFile)
    : option (list (option (Dict.t pyval) * string) * list string) :=
  let file_ents := bf_entities bf in
  let suffix := pop_value "suffix" file_ents in
  let file_ents := Dict.remove "suffix" file_ents in
  let ext := pop_value "extension" file_ents in
  let file_ents := Dict.remove "extension" file_ents in
  if is_none suffix || is_none ext then None
  else
    let ext_key := py_str ext +:+ "/" +:+ py_str suffix in
    let json_key := "json/" +:+ py_str suffix in
    Some (collect file_data file_ents json_key ext_key (bf_dirname bf)).

(** What follows the ancestry walk for a file with [payloads] and
    [ancestors]; [None] when a payload is [None] and [update] raises. *)
Definition resolve_file (bf : BIDSFile)
    (payloads : list (option (Dict.t pyval) * string))
    (ancestors : list string) (st : md_state) : option md_state :=
  match last payloads with
  | None => Some st                                   (* continue *)
  | Some far =>
      let js_file := far.2 in
      let s := Session.add_all
                 [RAssoc (mkAssoc js_file (bf_path bf) Metadata);
                  RAssoc (mkAssoc (bf_path bf) js_file Metadata)]
                 (md_session st) in
      file_md ← consolidate payloads;
      let s := Session.add_all (chain payloads.*2) s in
      let s := Session.add_all (chain ancestors) s in
      let st := foldl (add_metadata_tag bf) (mkMd s (all_entities st))
                      file_md in
      Some (if bool_decide (1000 ≤ length (s_new (md_session st)))%nat
            then mkMd (Session.commit (md_session st)) (all_entities st)
            else st)
  end.

(** The body of the second loop for one file. *)
Definition process_file
    (file_data : gmap string (gmap string (list fd_entry)))
    (st : md_state) (bf : BIDSFile) : option md_state :=
  match ancestry file_data bf with
  | None => Some st                                   (* continue *)
  | Some pa => resolve_file bf pa.1 pa.2 st
  end.

(** The second loop, over the files that are not JSON files. *)
Definition process_files
    (file_data : gmap string (gmap string (list fd_entry)))
    (st : md_state) (filenames : list BIDSFile) : option md_state :=
  foldl (fun acc bf => st ← acc; process_file file_data st bf)
        (Some st) filenames.

Section MetadataPass.
Variable L : Layout.
Variable X : Externals.

(** [all_entities] before the second loop. *)
Definition initial_entities : gmap string Entity :=
  foldl (fun m c => foldl (fun m kv => <[kv.1 := kv.2]> m) m (cfg_entities c))
        ∅ (Dict.values (config L)).

(** [_index_metadata]; [all_files] is what [layout.get] returned. *)
Definition _index_metadata (all_files : list BIDSFile) (s : session)
    : option session :=
  file_data ← build_file_data X all_files;
  let filenames :=
    filter (fun bf => negb (Path.endswith (bf_path bf) ".json")) all_files in
  st ← process_files file_data (mkMd s initial_entities) filenames;
  Some (Session.commit (md_session st)).
End MetadataPass.

(** ** [index_layout] *)

(** Modelled from the spec: [layout.get(absolute_paths=True)] of
    [layout.py], which is not part of the sources: every File of the index,
    with its derived mapping from entity names to values, read off its
    Tags. *)
Definition layout_get (s : session) : list BIDSFile :=
  let rs := Session.records s in
  (fun bf =>
     mkBIDSFile (bf_path bf) (bf_dirname bf)
       (foldl (fun d t =>
                 if bool_decide (tag_file t = bf_path bf)
                 then Dict.set (ent_name (tag_entity t)) (tag_value t) d
                 else d)
              [] (tags_of rs)))
  <$> files_of rs.

(** [index_layout(layout, force_index, index_metadata)] on the tree [fs]
    found at the root: the final session and the log of the walk, or [None]
    when the metadata pass raises. *)
Definition index_layout (L : Layout) (X : Externals) (fs : fsdir)
    (force_index index_metadata : bool) : option walk_state :=
  let w := index_walk L X force_index fs in
  if index_metadata
  then s ← _index_metadata L X (layout_get (ws_session w)) (ws_session w);
       Some (mkWalk s (ws_walked w))
  else Some w.

(** ** Concrete datasets used to run the definitions *)

Module Fixture.

(** A matcher given by a table: entity name, path, extracted value. *)
Fixpoint table_matcher (tbl : list (string * string * pyval))
    (e : Entity) (bf : BIDSFile) : pyval :=
  match tbl with
  | [] => PNone
  | row :: tbl' =>
      if bool_decide (row.1 = (ent_name e, bf_path bf)) then row.2
      else table_matcher tbl' e bf
  end.

(** JSON contents given by a table. *)
Definition table_json (tbl : list (string * Dict.t pyval))
    (path : string) : option (Dict.t pyval) :=
  Dict.get path tbl.

Definition ent (name : string) (mandatory : bool) : Entity :=
  mkEntity name None mandatory "str" false.

Definition no_config : string -> Config := fun _ => mkConfig "none" [].

Definition layout (entities : list Entity) (patterns : list string)
    (invalid : list string) : Layout :=
  mkLayout "/ds"
    [("bids", mkConfig "bids" ((fun e => (ent_name e, e)) <$> entities))]
    "layout_config.json"
    (negb (bool_decide (patterns = [])))
    (fun d => bool_decide (d ∈ patterns))
    (fun f => negb (bool_decide (f ∈ invalid)))
    (fun d => negb (bool_decide (d ∈ invalid))).

(** *** A forced directory holding an invalid file *)

Definition forced_layout : Layout :=
  layout [] ["/ds/extra"] ["/ds/extra/notes.txt"].
Definition forced_ext : Externals :=
  mkExternals (table_matcher []) no_config (table_json []).
Definition forced_tree : fsdir :=
  FsDir [] [("extra", FsDir ["notes.txt"] [])].

(** *** Two sidecars on the way up from a data file *)

Definition bold_entities : list Entity :=
  [ent "suffix" false; ent "extension" false].
Definition bold_layout : Layout := layout bold_entities [] [].
Definition bold_matches : list (string * string * pyval) :=
  [("suffix", "/ds/bold.json", PStr "bold");
   ("extension", "/ds/bold.json", PStr "json");
   ("suffix", "/ds/sub/bold.json", PStr "bold");
   ("extension", "/ds/sub/bold.json", PStr "json");
   ("suffix", "/ds/sub/x_bold.nii", PStr "bold");
   ("extension", "/ds/sub/x_bold.nii", PStr "nii")].
Definition bold_json : list (string * Dict.t pyval) :=
  [("/ds/bold.json", [("a", PInt 1); ("b", PInt 2)]);
   ("/ds/sub/bold.json", [("b", PInt 3)])].
Definition bold_ext : Externals :=
  mkExternals (table_matcher bold_matches) no_config (table_json bold_json).
Definition bold_tree : fsdir :=
  FsDir ["bold.json"] [("sub", FsDir ["bold.json"; "x_bold.nii"] [])].

(** *** A sidecar key named like a filename entity *)

Definition run_entities : list Entity :=
  [ent "suffix" false; ent "extension" false; ent "run" false].
Definition run_layout : Layout := layout run_entities [] [].
Definition run_matches : list (string * string * pyval) :=
  [("suffix", "/ds/bold.json", PStr "bold");
   ("extension", "/ds/bold.json", PStr "json");
   ("suffix", "/ds/run-1_bold.nii", PStr "bold");
   ("extension", "/ds/run-1_bold.nii", PStr "nii");
   ("run", "/ds/run-1_bold.nii", PInt 1)].
Definition run_json : list (string * Dict.t pyval) :=
  [("/ds/bold.json", [("run", PInt 2)])].
Definition run_ext : Externals :=
  mkExternals (table_matcher run_matches) no_config (table_json run_json).
Definition run_tree : fsdir :=
  FsDir ["bold.json"; "run-1_bold.nii"] [].

(** The records of the walk as [layout.get] returns them, the store built
    from them, the data file and the payloads found on its way up. *)
Definition bold_files : list BIDSFile :=
  layout_get (ws_session (index_walk bold_layout bold_ext false bold_tree)).
Definition bold_data : gmap string (gmap string (list fd_entry)) :=
  default ∅ (build_file_data bold_ext bold_files).
Definition bold_nii : BIDSFile :=
  mkBIDSFile "/ds/sub/x_bold.nii" "/ds/sub"
    [("suffix", PStr "bold"); ("extension", PStr "nii")].
Definition bold_payloads : list (option (Dict.t pyval) * string) :=
  [(Some [("b", PInt 3)], "/ds/sub/bold.json");
   (Some [("a", PInt 1); ("b", PInt 2)], "/ds/bold.json")].
Definition bold_state : md_state :=
  mkMd (ws_session (index_walk bold_layout bold_ext false bold_tree))
       (initial_entities bold_layout).

(** A second data file under the same sidecars. *)
Definition bold_twin : BIDSFile :=
  mkBIDSFile "/ds/sub/y_bold.nii" "/ds/sub"
    [("suffix", PStr "bold"); ("extension", PStr "nii")].

(** A data file of another suffix, without any sidecar. *)
Definition lonely_nii : BIDSFile :=
  mkBIDSFile "/ds/sub/x_T1w.nii" "/ds/sub"
    [("suffix", PStr "T1w"); ("extension", PStr "nii")].

(** *** Reserved directories under the root, with forcing patterns *)

Definition deriv_layout : Layout :=
  layout [] ["/ds/derivatives"; "/ds/derivatives_old"] [].
Definition deriv_tree : fsdir :=
  FsDir ["a.nii"]
    [("derivatives", FsDir ["d.nii"] [("deep", FsDir ["dd.nii"] [])]);
     ("derivatives_old", FsDir ["e.nii"] []);
     ("sub", FsDir ["b.nii"] [])].

End Fixture.

(** ** The specification's wording of sidecar precedence *)

(** Key-by-key overwrite of a map by one payload. *)
Definition overwrite (m : gmap string pyval) (pl : Dict.t pyval)
    : gmap string pyval :=
  foldl (fun m kv => <[kv.1 := kv.2]> m) m pl.

(** Payloads in visitation order (closest first), applied from the farthest
    to the closest. *)
Fixpoint merged_by_proximity (payloads : list (Dict.t pyval))
    : gmap string pyval :=
  match payloads with
  | [] => ∅
  | closest :: farther => overwrite (merged_by_proximity farther) closest
  end.

(** The entity a metadata key is tagged with from a given registry: the one
    registered under the key, or else the one created for it. *)
Definition entity_for (registry : gmap string Entity) (md_key : string)
    : Entity :=
  default (metadata_entity md_key) (registry !! md_key).

(** [e1] comes before [e2] in the iteration order [es]. *)
Definition precedes (e1 e2 : Entity) (es : list Entity) : Prop :=
  ∃ i j, (i < j)%nat ∧ es !! i = Some e1 ∧ es !! j = Some e2.

Module OrderFixture.
Import Fixture.

(** Three entities, the first and the last mandatory and without a match,
    the middle one matching. *)
Definition entC : Entity := ent "session" true.
Definition entA : Entity := ent "subject" true.
Definition entB : Entity := ent "task" true.
Definition matches : list (string * string * pyval) :=
  [("subject", "/ds/sub-01.nii", PStr "01")].
Definition ext : Externals :=
  mkExternals (table_matcher matches) no_config (table_json []).
Definition lay : Layout := layout [] [] [].
Definition stopped_early : Dict.t Entity :=
  [("session", entC); ("subject", entA); ("task", entB)].
Definition stopped_late : Dict.t Entity :=
  [("subject", entA); ("task", entB); ("session", entC)].
End OrderFixture.

(** The dictionary items contributed by the entities of [es] that match
    [bf], in iteration order. *)
Definition matched_items (X : Externals) (bf : BIDSFile) (es : list Entity)
    : Dict.t (Entity * pyval) :=
  omap (fun e => if is_none (match_file X e bf) then None
                 else Some (ent_name e, (e, match_file X e bf))) es.

(** The invariant of the walk: no directory under the reserved prefix was
    walked, and every File record was created for an entry of a walked
    directory that passed the validity gate of [_index_file]. *)
Definition walk_ok (L : Layout) (force_index : bool) (w : walk_state) : Prop :=
  (∀ p fl, (p, fl) ∈ ws_walked w →
           Path.startswith p (Path.join (root L) "derivatives") = false)
  ∧ ∀ bf, bf ∈ files_of (Session.records (ws_session w)) →
      ∃ dp fl f, (dp, fl) ∈ ws_walked w
        ∧ bf = new_BIDSFile (Path.join dp f)
        ∧ (force_index = true ∨ _validate_file L (Path.join dp f) = true).

(** How the registry [all_entities] may change while [created] entities
    are added to the session: nothing registered is replaced, a key that
    appears holds the entity created for it, and each created entity is new,
    created once and registered under its name. *)
Definition registry_grows (R R' : gmap string Entity)
    (created : list Entity) : Prop :=
  R ⊆ R'
  ∧ (∀ k e, R !! k = None → R' !! k = Some e →
            e = metadata_entity k ∧ e ∈ created)
  ∧ NoDup (ent_name <$> created)
  ∧ ∀ e, e ∈ created →
         e = metadata_entity (ent_name e)
         ∧ R !! ent_name e = None ∧ R' !! ent_name e = Some e.

(** The consolidated metadata of a file, when its ancestry walk and the
    consolidation of its payloads go through. *)
Definition file_metadata
    (file_data : gmap string (gmap string (list fd_entry)))
    (bf : BIDSFile) : option (Dict.t pyval) :=
  pa ← ancestry file_data bf; consolidate pa.1.

(** The tags of a file for its consolidated metadata, each key tagged with
    the entity the registry [R] gives it. *)
Definition metadata_tags (R : gmap string Entity) (bf : BIDSFile)
    (file_md : Dict.t pyval) : list Tag :=
  (fun kv => mkTag (bf_path bf) (entity_for R kv.1) kv.2 None) <$> file_md.

(** The metadata-derived tags of a file: none when the file is skipped. *)
Definition file_tags (file_data : gmap string (gmap string (list fd_entry)))
    (R : gmap string Entity) (bf : BIDSFile) : list Tag :=
  default [] (metadata_tags R bf <$> file_metadata file_data bf).

(** A [Child] or [Parent] association. *)
Definition is_link (r : dbrecord) : bool :=
  match r with
  | RAssoc a => negb (bool_decide (fa_kind a = Metadata))
  | _ => false
  end.

(** The [Metadata] associations among some records. *)
Definition metadata_assocs (rs : list dbrecord) : list FileAssociation :=
  filter (fun a => fa_kind a = Metadata) (assocs_of rs).

(** ** Vocabulary for the properties of the walk and of the pass *)

(** A name without a separator, as a directory listing gives them. *)
Definition no_sep (f : string) : bool :=
  forallb (fun c => negb (Path.is_sep c)) (list_ascii_of_string f).

(** A path made of separators only, such as the filesystem root. *)
Definition all_seps (d : string) : bool :=
  forallb Path.is_sep (list_ascii_of_string d).

(** The gate of [_index_file] for the entry [f] of [dirpath]. *)
Definition passes_gate (L : Layout) (force_index : bool)
    (dirpath f : string) : bool :=
  force_index || _validate_file L (Path.join dirpath f).

(** The file names [index_dir] iterates over: the listing without the
    configuration file. *)
Definition listed_files (L : Layout) (filenames : list string) : list string :=
  if bool_decide (config_filename L ∈ filenames)
  then list_remove_first (config_filename L) filenames else filenames.

(** Whether [index_dir] goes into the subdirectory of path [d]. *)
Definition descends (L : Layout) (d : string) : bool :=
  negb (Path.startswith d (Path.join (root L) "derivatives"))
  && (force_index_matches L d || _validate_dir L d || force_index_truthy L).

(** The entities of a file apart from suffix and extension. *)
Definition file_ents_of (bf : BIDSFile) : Dict.t pyval :=
  Dict.remove "extension" (Dict.remove "suffix" (bf_entities bf)).

(** The key of [file_data] a file is stored under; [None] for a file
    without a suffix or an extension, which is not stored. *)
Definition file_key (bf : BIDSFile) : option string :=
  let suffix := pop_value "suffix" (bf_entities bf) in
  let ext := pop_value "extension" (Dict.remove "suffix" (bf_entities bf)) in
  if negb (is_none suffix) && negb (is_none ext)
  then Some (py_str ext +:+ "/" +:+ py_str suffix) else None.

(** Whether the first loop opens the file to read its JSON content. *)
Definition reads_json (bf : BIDSFile) : bool :=
  let suffix := pop_value "suffix" (bf_entities bf) in
  let ext := pop_value "extension" (Dict.remove "suffix" (bf_entities bf)) in
  negb (is_none suffix) && negb (is_none ext) && py_eq ext (PStr "json").

(** The element stored for a file. *)
Definition file_entry (X : Externals) (bf : BIDSFile) : fd_entry :=
  (file_ents_of bf,
   if py_eq (pop_value "extension" (Dict.remove "suffix" (bf_entities bf)))
            (PStr "json")
   then json_load X (bf_path bf) else None,
   bf_path bf).

(** The association in the other direction. *)
Definition dual (k : assoc_kind) : assoc_kind :=
  match k with Metadata => Metadata | Child => Parent | Parent => Child end.
Definition converse (a : FileAssociation) : FileAssociation :=
  mkAssoc (fa_dst a) (fa_src a) (dual (fa_kind a)).

(** A registry in which every key is the name of its entity. *)
Definition well_keyed (R : gmap string Entity) : Prop :=
  ∀ k e, R !! k = Some e → ent_name e = k.

(** The flag [force_index] of the loop over subdirectories once the entries
    [ds] have been gone through: set by the first entry outside the reserved
    prefix that matches a force-index pattern, and never reset. *)
Definition flag_after (L : Layout) (dirpath : string)
    (ds : list (string * fsdir)) (force_index : bool) : bool :=
  force_index
  || existsb (fun entry : string * fsdir =>
                let d := Path.join dirpath entry.1 in
                negb (Path.startswith d (Path.join (root L) "derivatives"))
                && force_index_matches L d) ds.

(** [w'] was reached from [w] by adding records and walking directories. *)
Definition walk_extends (w w' : walk_state) : Prop :=
  (∃ added, Session.records (ws_session w')
            = Session.records (ws_session w) ++ added)
  ∧ ∃ more, ws_walked w' = ws_walked w ++ more.

(** ** The uniqueness the store enforces *)

(** Modelled from the spec: the keys under which the store of [models.py],
    which is not part of the sources, keeps the two kinds of records this
    module can add twice: a Tag is known by its (File, Entity) pair, an
    Association by its source, destination and kind. *)
Definition tag_key (t : Tag) : string * string :=
  (tag_file t, ent_name (tag_entity t)).
Definition assoc_key (a : FileAssociation) : string * string * assoc_kind :=
  (fa_src a, fa_dst a, fa_kind a).

(** Modelled from the spec: what a commit of the store of [models.py]
    requires of the records it has been handed: at most one Tag per
    (File, Entity) pair and at most one Association per source, destination
    and kind.  A commit of records that break this raises. *)
Definition store_accepts (rs : list dbrecord) : bool :=
  bool_decide (NoDup (tag_key <$> tags_of rs))
  && bool_decide (NoDup (assoc_key <$> assocs_of rs)).

(** [index_layout] against that store.  Records are only ever added and the
    run ends with a commit, so the commits of a run all go through exactly
    when the records of the whole run are accepted; otherwise a commit
    raises and the run does not complete. *)
Definition index_layout_on_store (L : Layout) (X : Externals) (fs : fsdir)
    (force_index index_metadata : bool) : option walk_state :=
  w ← index_layout L X fs force_index index_metadata;
  if store_accepts (Session.records (ws_session w)) then Some w else None.

(** * Properties *)

(** ** Strings and paths *)

Lemma string_length_chars (s : string) :
  String.length s = length (list_ascii_of_string s).
Proof. induction s as [|c s IH]; simpl; [done|by rewrite IH]. Qed.

Lemma prefix_length (p s : string) :
  String.prefix p s = true → (String.length p ≤ String.length s)%nat.
Proof.
  revert s. induction p as [|c p IH]; intros [|c' s] H; simpl in *; try lia;
    try discriminate.
  destruct (ascii_dec c c'); [|discriminate]. apply IH in H. lia.
Qed.

Lemma prefix_refl_app (p s : string) : String.prefix p (p +:+ s) = true.
Proof.
  induction p as [|c p IH]; simpl.
  - by destruct s.
  - destruct (ascii_dec c c); [apply IH|done].
Qed.

Lemma string_app_length (a b : string) :
  String.length (a +:+ b) = (String.length a + String.length b)%nat.
Proof. induction a as [|c a IH]; simpl; [done|by rewrite IH]. Qed.

Lemma string_app_assoc (a b c : string) : (a +:+ b) +:+ c = a +:+ b +:+ c.
Proof.
  induction a as [|x a IH]; [done|].
  change (String x ((a +:+ b) +:+ c) = String x (a +:+ b +:+ c)).
  by rewrite IH.
Qed.

Lemma prefix_sep_cons (c : ascii) (b b' : string) :
  String.prefix "/" (String c b) = String.prefix "/" (String c b').
Proof. cbn [String.prefix]. by destruct (ascii_dec _ c); destruct b, b'. Qed.

Lemma prefix_trans (a b c : string) :
  String.prefix a b = true → String.prefix b c = true →
  String.prefix a c = true.
Proof.
  revert b c. induction a as [|x a IH]; intros [|y b] [|z c]; simpl; try done.
  destruct (ascii_dec x y) as [->|]; [|done].
  destruct (ascii_dec y z) as [->|]; [|done].
  apply IH.
Qed.

(** Joining a relative name puts the directory in front of it. *)
Lemma join_relative (a b : string) :
  Path.startswith b "/" = false →
  ∃ glue, Path.join a b = a +:+ glue +:+ b.
Proof.
  intros Hb. unfold Path.join. rewrite Hb.
  destruct (_ || _); [by exists ""|by exists "/"].
Qed.

Lemma join_relative_app (a b s : string) :
  Path.startswith b "/" = false → b ≠ "" →
  Path.join a (b +:+ s) = Path.join a b +:+ s.
Proof.
  intros Hb Hne. unfold Path.join.
  assert (Path.startswith (b +:+ s) "/" = false) as ->.
  { destruct b as [|c b]; [done|]. unfold Path.startswith in *.
    change (String c b +:+ s) with (String c (b +:+ s)).
    by rewrite (prefix_sep_cons c _ b). }
  rewrite Hb. destruct (_ || _); by rewrite ?string_app_assoc.
Qed.

(** The root itself is never under its [derivatives] directory. *)
Lemma root_not_under_derivatives (r : string) :
  Path.startswith r (Path.join r "derivatives") = false.
Proof.
  destruct (join_relative r "derivatives" eq_refl) as [glue ->].
  destruct (Path.startswith _ _) eqn:H; [|done].
  apply prefix_length in H. rewrite !string_app_length in H. simpl in H. lia.
Qed.

(** Every name that begins with [derivatives] lands under the reserved
    prefix. *)
Lemma derivatives_prefix_skipped (r s : string) :
  Path.startswith (Path.join r ("derivatives" +:+ s))
                  (Path.join r "derivatives") = true.
Proof.
  rewrite join_relative_app; [|done..]. apply prefix_refl_app.
Qed.

(** [os.path.dirname] either leaves a path alone or returns a strictly
    shorter one: the ancestry walk terminates. *)
Lemma drop_basename_shorter (r : list ascii) :
  Path.drop_basename r = r ∨ (length (Path.drop_basename r) < length r)%nat.
Proof.
  induction r as [|c r IH]; simpl; [by left|].
  destruct (Path.is_sep c); [by left|]. right. destruct IH as [->|]; lia.
Qed.

Lemma drop_basename_fixed (r : list ascii) :
  Path.drop_basename r = r →
  r = [] ∨ ∃ c r', r = c :: r' ∧ Path.is_sep c = true.
Proof.
  destruct r as [|c r]; [by left|]. simpl.
  destruct (Path.is_sep c) eqn:Hc; [right; eauto|].
  intros H. destruct (drop_basename_shorter r) as [Heq|Hlt].
  - rewrite Heq in H. apply (f_equal length) in H. simpl in H. lia.
  - rewrite H in Hlt. simpl in Hlt. lia.
Qed.

Lemma strip_seps_length (r : list ascii) :
  (length (Path.strip_seps r) ≤ length r)%nat.
Proof.
  induction r as [|c r IH]; simpl; [done|].
  destruct (Path.is_sep c); simpl; lia.
Qed.

Lemma dirname_chars_shorter (p : list ascii) :
  Path.dirname_chars p = p ∨ (length (Path.dirname_chars p) < length p)%nat.
Proof.
  unfold Path.dirname_chars.
  destruct (drop_basename_shorter (reverse p)) as [Heq|Hlt].
  - rewrite Heq. destruct (forallb _ _) eqn:Hall.
    + left. apply reverse_involutive.
    + right. apply drop_basename_fixed in Heq as [Hnil|(c & r' & Hr & Hc)].
      * by rewrite Hnil in Hall.
      * rewrite Hr. simpl. rewrite Hc. rewrite length_reverse.
        pose proof (strip_seps_length r').
        apply (f_equal length) in Hr. rewrite length_reverse in Hr.
        simpl in Hr. lia.
  - right. rewrite length_reverse in Hlt.
    destruct (forallb _ _); rewrite length_reverse; [done|].
    pose proof (strip_seps_length (Path.drop_basename (reverse p))). lia.
Qed.

Lemma dirname_shorter (d : string) :
  Path.dirname d = d ∨ (String.length (Path.dirname d) < String.length d)%nat.
Proof.
  unfold Path.dirname.
  destruct (dirname_chars_shorter (list_ascii_of_string d)) as [Heq|Hlt].
  - left. rewrite Heq. apply string_of_list_ascii_of_string.
  - right. rewrite !string_length_chars, list_ascii_of_string_of_list_ascii.
    done.
Qed.

Lemma walk_up_fuel n file_data file_ents json_key ext_key :
  ∀ dirname fuel1 fuel2 acc,
    (String.length dirname ≤ n)%nat →
    (String.length dirname ≤ fuel1)%nat →
    (String.length dirname ≤ fuel2)%nat →
    walk_up fuel1 file_data file_ents json_key ext_key dirname acc
    = walk_up fuel2 file_data file_ents json_key ext_key dirname acc.
Proof.
  induction n as [|n IH]; intros dirname fuel1 fuel2 acc Hn H1 H2.
  - destruct (dirname_shorter dirname) as [Heq|Hlt]; [|lia].
    destruct fuel1, fuel2; simpl; rewrite !bool_decide_eq_true_2; done.
  - destruct (dirname_shorter dirname) as [Heq|Hlt].
    + destruct fuel1, fuel2; simpl; rewrite !bool_decide_eq_true_2; done.
    + destruct fuel1 as [|fuel1]; [lia|]. destruct fuel2 as [|fuel2]; [lia|].
      simpl. case_bool_decide; [done|]. apply IH; lia.
Qed.

(** The loop equation of the ancestry walk: visit the directory, stop at a
    directory that is its own parent, otherwise go on from the parent. *)
Lemma walk_up_unfold file_data file_ents json_key ext_key dirname acc :
  walk_up (String.length dirname) file_data file_ents json_key ext_key
          dirname acc
  = let acc' := visit_dir file_data file_ents json_key ext_key dirname acc in
    let parent := Path.dirname dirname in
    if bool_decide (parent = dirname) then acc'
    else walk_up (String.length parent) file_data file_ents json_key ext_key
                 parent acc'.
Proof.
  destruct (dirname_shorter dirname) as [Heq|Hlt].
  - destruct (String.length dirname); simpl; by rewrite !bool_decide_eq_true_2.
  - destruct (String.length dirname) as [|n] eqn:Hlen; [lia|].
    simpl. case_bool_decide; [done|].
    apply (walk_up_fuel n); lia.
Qed.

(** ** Dictionaries *)

Lemma dict_get_set {V} (k k' : string) (v : V) (d : Dict.t V) :
  Dict.get k (Dict.set k' v d)
  = if bool_decide (k' = k) then Some v else Dict.get k d.
Proof.
  induction d as [|[k0 v0] d IH]; simpl.
  - done.
  - destruct (bool_decide (k0 = k')) eqn:H0; simpl.
    + apply bool_decide_eq_true in H0 as ->. by case_bool_decide.
    + apply bool_decide_eq_false in H0. rewrite IH.
      repeat case_bool_decide; congruence.
Qed.

Lemma dict_set_fresh {V} (k : string) (v : V) (d : Dict.t V) :
  k ∉ Dict.keys d → Dict.set k v d = d ++ [(k, v)].
Proof.
  unfold Dict.keys. induction d as [|[k0 v0] d IH]; csimpl; [done|].
  intros Hk. apply not_elem_of_cons in Hk as [Hne Hk].
  rewrite bool_decide_eq_false_2; [|done]. by rewrite IH.
Qed.

Lemma dict_keys_set {V} (k : string) (v : V) (d : Dict.t V) :
  Dict.keys (Dict.set k v d)
  = if bool_decide (k ∈ Dict.keys d) then Dict.keys d else Dict.keys d ++ [k].
Proof.
  unfold Dict.keys. induction d as [|[k0 v0] d IH]; csimpl; [done|].
  destruct (bool_decide (k0 = k)) eqn:H0; csimpl.
  - apply bool_decide_eq_true in H0 as ->.
    rewrite bool_decide_eq_true_2; [done|by left].
  - apply bool_decide_eq_false in H0. rewrite IH.
    case_bool_decide as Hin.
    + rewrite bool_decide_eq_true_2; [done|by right].
    + rewrite bool_decide_eq_false_2; [done|].
      intros [?|?]%elem_of_cons; congruence.
Qed.

Lemma dict_set_nodup {V} (k : string) (v : V) (d : Dict.t V) :
  NoDup (Dict.keys d) → NoDup (Dict.keys (Dict.set k v d)).
Proof.
  intros Hd. rewrite dict_keys_set. case_bool_decide; [done|].
  apply NoDup_app. split_and!; [done| |apply NoDup_singleton].
  intros x Hx ->%list_elem_of_singleton. done.
Qed.

Lemma dict_update_nodup {V} (d other : Dict.t V) :
  NoDup (Dict.keys d) → NoDup (Dict.keys (Dict.update d other)).
Proof.
  unfold Dict.update. revert d.
  induction other as [|kv other IH]; intros d Hd; simpl; [done|].
  apply IH. by apply dict_set_nodup.
Qed.

(** ** The session only grows *)

Lemma records_add r s : Session.records (Session.add r s) = Session.records s ++ [r].
Proof. unfold Session.records, Session.add. simpl. by rewrite app_assoc. Qed.

Lemma records_add_all rs s :
  Session.records (Session.add_all rs s) = Session.records s ++ rs.
Proof. unfold Session.records, Session.add_all. simpl. by rewrite app_assoc. Qed.

Lemma records_commit s : Session.records (Session.commit s) = Session.records s.
Proof. unfold Session.records, Session.commit. simpl. by rewrite app_nil_r. Qed.

Lemma records_add_each rs s :
  Session.records (fold_left (fun s r => Session.add r s) rs s)
  = Session.records s ++ rs.
Proof.
  revert s. induction rs as [|r rs IH]; intros s; simpl.
  - by rewrite app_nil_r.
  - by rewrite IH, records_add, <- app_assoc.
Qed.

Lemma files_of_app rs1 rs2 : files_of (rs1 ++ rs2) = files_of rs1 ++ files_of rs2.
Proof. apply omap_app. Qed.
Lemma tags_of_app rs1 rs2 : tags_of (rs1 ++ rs2) = tags_of rs1 ++ tags_of rs2.
Proof. apply omap_app. Qed.
Lemma entities_of_app rs1 rs2 :
  entities_of (rs1 ++ rs2) = entities_of rs1 ++ entities_of rs2.
Proof. apply omap_app. Qed.
Lemma assocs_of_app rs1 rs2 :
  assocs_of (rs1 ++ rs2) = assocs_of rs1 ++ assocs_of rs2.
Proof. apply omap_app. Qed.

(** ** Entity extraction *)

(** Once [break] is taken the loop state no longer moves. *)
Lemma inline_stopped X bf es mv :
  fold_left (inline_step X bf) es (mv, true) = (mv, true).
Proof. induction es as [|e es IH]; simpl; [done|apply IH]. Qed.

Lemma inline_loop_extract X bf es mv :
  (fold_left (inline_step X bf) es (mv, false)).1 = extract_loop X bf es mv.
Proof.
  revert mv. induction es as [|e es IH]; intros mv; simpl; [done|].
  unfold inline_step at 2. simpl.
  destruct (is_none (match_file X e bf) && ent_mandatory e).
  - by rewrite inline_stopped.
  - destruct (negb _); apply IH.
Qed.

(** What [_index_file] does to the session, in terms of the helper. *)
Lemma index_file_records L X force_index f dirpath entities s :
  let abs_fn := Path.join dirpath f in
  let bf := new_BIDSFile abs_fn in
  _index_file L X force_index f dirpath entities s
  = if negb force_index && negb (_validate_file L abs_fn) then (None, s)
    else (Some bf,
          fold_left (fun s tag => Session.add tag s)
            (filename_tags bf (_extract_entities X bf entities))
            (Session.add (RFile bf) s)).
Proof.
  simpl. unfold _index_file, inline_match_vals, _extract_entities.
  by rewrite inline_loop_extract.
Qed.

Lemma matched_items_entity X bf es kv :
  kv ∈ matched_items X bf es →
  kv.2.1 ∈ es ∧ kv.1 = ent_name kv.2.1 ∧ kv.2.2 = match_file X kv.2.1 bf.
Proof.
  unfold matched_items. intros (e & He & Hkv)%list_elem_of_omap.
  destruct (is_none _); simplify_eq. done.
Qed.

Lemma matched_items_elem X bf es e :
  e ∈ es → is_none (match_file X e bf) = false →
  (ent_name e, (e, match_file X e bf)) ∈ matched_items X bf es.
Proof.
  intros He Hm. unfold matched_items. apply list_elem_of_omap.
  exists e. by rewrite Hm.
Qed.

(** With distinct names and no mandatory miss, the loop runs through [pre]
    and appends one item per matching entity. *)
Lemma extract_loop_no_break X bf pre rest mv :
  (∀ e, e ∈ pre → ent_mandatory e = true →
        is_none (match_file X e bf) = false) →
  NoDup (ent_name <$> pre) →
  (∀ e, e ∈ pre → ent_name e ∉ Dict.keys mv) →
  extract_loop X bf (pre ++ rest) mv
  = extract_loop X bf rest (mv ++ matched_items X bf pre).
Proof.
  revert mv. induction pre as [|e pre IH]; intros mv Hman Hnd Hfresh.
  - simpl. by rewrite app_nil_r.
  - rewrite fmap_cons in Hnd. apply NoDup_cons in Hnd as [Hne Hnd].
    simpl. destruct (is_none (match_file X e bf)) eqn:Hm; simpl.
    + destruct (ent_mandatory e) eqn:Hme.
      { rewrite Hman in Hm; [done|by left|done]. }
      apply IH; [|done|].
      * intros e' ?. apply Hman. by right.
      * intros e' ?. apply Hfresh. by right.
    + rewrite dict_set_fresh by (apply Hfresh; by left).
      rewrite IH; [by rewrite <- app_assoc| |done|].
      * intros e' ?. apply Hman. by right.
      * intros e' He'. unfold Dict.keys. rewrite fmap_app. csimpl.
        intros [Hin|Hin%list_elem_of_singleton]%elem_of_app.
        -- by apply (Hfresh e'); [right|].
        -- apply Hne. rewrite <- Hin. by apply list_elem_of_fmap_2.
Qed.

Lemma extract_loop_break X bf B post mv :
  ent_mandatory B = true → is_none (match_file X B bf) = true →
  extract_loop X bf (B :: post) mv = mv.
Proof. intros HB Hm. simpl. by rewrite Hm, HB. Qed.

(** C9: the module-level helper [_extract_entities] and the loop written
    inline in [_index_file] compute the same dictionary from entity names to
    (entity, value) pairs, for every file and every ordered entity
    dictionary. *)
Theorem C9_inline_loop_equals_extract_entities
    (X : Externals) (bf : BIDSFile) (entities : Dict.t Entity) :
  inline_match_vals X bf entities = _extract_entities X bf entities.
Proof. apply inline_loop_extract. Qed.

(** C4, as stated, fails: with a mandatory entity that misses placed before
    A, the loop stops before A is reached; A matches the file and precedes
    the mandatory miss B, the File record is created, and no tag carries
    A. *)
Lemma C4_counterexample_miss_before_A :
  let bf := new_BIDSFile "/ds/sub-01.nii" in
  let r := _index_file OrderFixture.lay OrderFixture.ext false
             "sub-01.nii" "/ds" OrderFixture.stopped_early Session.empty in
  precedes OrderFixture.entA OrderFixture.entB
           (Dict.values OrderFixture.stopped_early)
  ∧ is_none (match_file OrderFixture.ext OrderFixture.entA bf) = false
  ∧ ent_mandatory OrderFixture.entB = true
  ∧ is_none (match_file OrderFixture.ext OrderFixture.entB bf) = true
  ∧ r.1 = Some bf
  ∧ ¬ ∃ t, t ∈ tags_of (Session.records r.2)
           ∧ tag_entity t = OrderFixture.entA.
Proof.
  split_and!; try reflexivity.
  - exists 1%nat, 2%nat. split_and!; [lia|done|done].
  - intros (t & Ht & _). vm_compute in Ht. by apply elem_of_nil in Ht.
Qed.

(** C4, amended: when B is the first mandatory entity that fails to match
    (every mandatory entity before it matches), entity names are pairwise
    distinct and the file passes the validity gate, the File record is
    created, A (any matching entity before B) is tagged with its value, and
    no tag carries B or an entity after B. *)
Theorem C4_tags_up_to_first_mandatory_miss
    (L : Layout) (X : Externals) (force_index : bool) (f dirpath : string)
    (entities : Dict.t Entity) (pre : list Entity) (B : Entity)
    (post : list Entity) (A : Entity) (s : session) :
  let bf := new_BIDSFile (Path.join dirpath f) in
  let r := _index_file L X force_index f dirpath entities s in
  Dict.values entities = pre ++ B :: post →
  NoDup (ent_name <$> Dict.values entities) →
  (∀ e, e ∈ pre → ent_mandatory e = true →
        is_none (match_file X e bf) = false) →
  A ∈ pre → is_none (match_file X A bf) = false →
  ent_mandatory B = true → is_none (match_file X B bf) = true →
  force_index = true ∨ _validate_file L (Path.join dirpath f) = true →
  r.1 = Some bf
  ∧ ∃ tags,
      Session.records r.2 = Session.records s ++ RFile bf :: (RTag <$> tags)
      ∧ mkTag (bf_path bf) A (PStr (py_str (match_file X A bf)))
              (Some (ent_dtype A)) ∈ tags
      ∧ ∀ t e, t ∈ tags → e ∈ B :: post →
               tag_entity t ≠ e ∧ ent_name (tag_entity t) ≠ ent_name e.
Proof.
  intros bf r Hes Hnd Hman HA HAm HB HBm Hgate. subst r.
  rewrite index_file_records. fold bf.
  assert (negb force_index && negb (_validate_file L (Path.join dirpath f))
          = false) as ->.
  { destruct Hgate as [-> | ->]; [done|by rewrite andb_false_r]. }
  assert (_extract_entities X bf entities = matched_items X bf pre) as ->.
  { unfold _extract_entities. rewrite Hes.
    rewrite extract_loop_no_break; [by apply extract_loop_break|done| |].
    - rewrite Hes, fmap_app in Hnd. by apply NoDup_app in Hnd as [? _].
    - intros e _ Hin. by apply elem_of_nil in Hin. }
  split; [done|].
  exists ((fun kv => mkTag (bf_path bf) kv.2.1 (PStr (py_str kv.2.2))
                           (Some (ent_dtype kv.2.1)))
          <$> matched_items X bf pre).
  split_and!.
  - cbn [snd]. rewrite records_add_each, records_add, <- app_assoc. simpl.
    unfold filename_tags. by rewrite <- list_fmap_compose.
  - apply list_elem_of_fmap.
    exists (ent_name A, (A, match_file X A bf)). split; [done|].
    by apply matched_items_elem.
  - intros t e (kv & -> & Hkv)%list_elem_of_fmap He. simpl.
    apply matched_items_entity in Hkv as (Hpre & _ & _).
    rewrite Hes, fmap_app in Hnd. apply NoDup_app in Hnd as (_ & Hdisj & _).
    assert (ent_name kv.2.1 ≠ ent_name e) as Hne.
    { intros Heq. apply (Hdisj (ent_name kv.2.1)).
      - by apply list_elem_of_fmap_2.
      - rewrite Heq. by apply list_elem_of_fmap_2. }
    split; [|done]. intros Heq. by rewrite Heq in Hne.
Qed.

Lemma C4_tags_up_to_first_mandatory_miss_witness :
  let bf := new_BIDSFile "/ds/sub-01.nii" in
  let r := _index_file OrderFixture.lay OrderFixture.ext false
             "sub-01.nii" "/ds" OrderFixture.stopped_late Session.empty in
  r.1 = Some bf
  ∧ ∃ tags,
      Session.records r.2
      = Session.records Session.empty ++ RFile bf :: (RTag <$> tags)
      ∧ mkTag (bf_path bf) OrderFixture.entA
              (PStr (py_str (match_file OrderFixture.ext OrderFixture.entA bf)))
              (Some (ent_dtype OrderFixture.entA)) ∈ tags
      ∧ ∀ t e, t ∈ tags → e ∈ [OrderFixture.entB; OrderFixture.entC] →
               tag_entity t ≠ e ∧ ent_name (tag_entity t) ≠ ent_name e.
Proof.
  apply (C4_tags_up_to_first_mandatory_miss
           OrderFixture.lay OrderFixture.ext false "sub-01.nii" "/ds"
           OrderFixture.stopped_late [OrderFixture.entA] OrderFixture.entB
           [OrderFixture.entC] OrderFixture.entA Session.empty).
  - reflexivity.
  - apply (bool_decide_unpack _). vm_compute. exact I.
  - intros e He _. apply list_elem_of_singleton in He. subst e. reflexivity.
  - apply list_elem_of_singleton. reflexivity.
  - reflexivity.
  - reflexivity.
  - reflexivity.
  - right. reflexivity.
Defined.

(** ** The directory walk *)

(** Induction over a directory tree, with the hypothesis on every
    subdirectory. *)
Lemma fsdir_tree_ind (P : fsdir → Prop) :
  (∀ filenames dirnames,
     Forall (fun entry => P entry.2) dirnames → P (FsDir filenames dirnames)) →
  ∀ t, P t.
Proof.
  intros Hstep. fix IH 1. intros [filenames dirnames]. apply Hstep.
  induction dirnames as [|entry dirnames IHd]; constructor; [apply IH|apply IHd].
Qed.

(** [_index_file] never reads the flag of the walk: a file that fails
    validation is skipped whenever [index_layout] itself was not forced. *)
Lemma index_file_invalid_skipped L X f dirpath entities s :
  _validate_file L (Path.join dirpath f) = false →
  _index_file L X false f dirpath entities s = (None, s).
Proof. intros Hv. unfold _index_file. by rewrite Hv. Qed.

Lemma index_file_files L X force_index f dirpath entities s :
  files_of (Session.records (_index_file L X force_index f dirpath entities s).2)
  = files_of (Session.records s)
    ++ (if negb force_index && negb (_validate_file L (Path.join dirpath f))
        then [] else [new_BIDSFile (Path.join dirpath f)]).
Proof.
  rewrite index_file_records. cbv zeta.
  destruct (_ && _); cbn [snd]; [by rewrite app_nil_r|].
  rewrite records_add_each, records_add, !files_of_app. simpl.
  unfold filename_tags, files_of. rewrite <- app_assoc. f_equal. simpl.
  f_equal. induction (_extract_entities _ _ _) as [|kv mv IH]; [done|apply IH].
Qed.

Lemma index_files_files L X force_index dirpath filenames entities s bf :
  bf ∈ files_of (Session.records
                   (index_files L X force_index dirpath filenames entities s)) →
  bf ∈ files_of (Session.records s)
  ∨ ∃ f, f ∈ filenames ∧ bf = new_BIDSFile (Path.join dirpath f)
         ∧ (force_index = true ∨ _validate_file L (Path.join dirpath f) = true).
Proof.
  unfold index_files. rewrite records_commit. revert s.
  induction filenames as [|f filenames IH]; intros s; simpl; [by left|].
  intros Hbf. apply IH in Hbf as [Hbf|(f' & ? & ? & ?)].
  - rewrite index_file_files in Hbf. apply elem_of_app in Hbf as [Hbf|Hbf].
    { by left. }
    right. exists f. split; [by left|].
    destruct force_index, (_validate_file L (Path.join dirpath f)); simpl in Hbf;
      try (apply list_elem_of_singleton in Hbf; auto);
      by apply elem_of_nil in Hbf.
  - right. exists f'. split_and!; [by right|done..].
Qed.

Lemma walk_ok_visit L force_index w path fl filenames entities X :
  walk_ok L force_index w →
  Path.startswith path (Path.join (root L) "derivatives") = false →
  walk_ok L force_index
    (mkWalk (index_files L X force_index path filenames entities (ws_session w))
            (ws_walked w ++ [(path, fl)])).
Proof.
  intros [Hw Hf] Hpath. split; simpl.
  - intros p fl' [Hin|Hin%list_elem_of_singleton]%elem_of_app;
      [by eapply Hw|by simplify_eq].
  - intros bf Hbf. apply index_files_files in Hbf as [Hbf|(f & _ & -> & Hg)].
    + destruct (Hf bf Hbf) as (dp & fl' & f & ? & ? & ?).
      exists dp, fl', f. split_and!; [apply elem_of_app; by left|done..].
    + exists path, fl, f.
      split_and!; [apply elem_of_app; right; by left|done..].
Qed.

Lemma index_subdirs_ok L force_index recurse dirpath ds :
  Forall (fun entry : string * fsdir => ∀ d fl w,
            walk_ok L force_index w →
            Path.startswith d (Path.join (root L) "derivatives") = false →
            walk_ok L force_index (recurse entry.2 d fl w)) ds →
  ∀ fl w, walk_ok L force_index w →
          walk_ok L force_index (index_subdirs L recurse dirpath ds fl w).
Proof.
  induction 1 as [|entry ds Hentry _ IH]; intros fl w Hw; simpl; [done|].
  destruct (Path.startswith _ _) eqn:Hd; [by apply IH|].
  destruct (force_index_matches L _); [by apply IH, Hentry|].
  destruct (_ && _); [by apply IH|by apply IH, Hentry].
Qed.

Lemma index_dir_ok L X force_index t :
  ∀ path config parent fl w,
    walk_ok L force_index w →
    Path.startswith path (Path.join (root L) "derivatives") = false →
    walk_ok L force_index (index_dir L X force_index t path config parent fl w).
Proof.
  induction t as [filenames dirnames IH] using fsdir_tree_ind.
  intros path config parent fl w Hw Hpath. simpl.
  apply index_subdirs_ok.
  - eapply Forall_impl; [exact IH|]. intros entry Hentry d fl' w'. apply Hentry.
  - by apply walk_ok_visit.
Qed.

Lemma index_walk_ok L X force_index fs :
  walk_ok L force_index (index_walk L X force_index fs).
Proof.
  apply index_dir_ok; [|apply root_not_under_derivatives].
  split; simpl.
  - intros p fl Hin. by apply elem_of_nil in Hin.
  - intros bf Hin. by apply elem_of_nil in Hin.
Qed.

(** ** The registry of entities *)

Lemma registry_grows_refl R : registry_grows R R [].
Proof.
  split_and!; [done| |constructor|].
  - intros k e Hn Hs. congruence.
  - intros e He. by apply elem_of_nil in He.
Qed.

Lemma registry_grows_trans R R1 R2 c1 c2 :
  registry_grows R R1 c1 → registry_grows R1 R2 c2 →
  registry_grows R R2 (c1 ++ c2).
Proof.
  intros (Hsub1 & Hnew1 & Hnd1 & Hc1) (Hsub2 & Hnew2 & Hnd2 & Hc2).
  split_and!.
  - by etrans.
  - intros k e Hn Hs. destruct (R1 !! k) as [y|] eqn:H1.
    + assert (R2 !! k = Some y) by (by eapply lookup_weaken).
      simplify_eq. destruct (Hnew1 k e Hn H1). split; [done|].
      apply elem_of_app. by left.
    + destruct (Hnew2 k e H1 Hs). split; [done|]. apply elem_of_app. by right.
  - rewrite fmap_app. apply NoDup_app. split_and!; [done| |done].
    intros n (e1 & -> & He1)%list_elem_of_fmap (e2 & Hn & He2)%list_elem_of_fmap.
    destruct (Hc1 e1 He1) as (_ & _ & Hreg). destruct (Hc2 e2 He2) as (_ & Hfree & _).
    rewrite <- Hn in Hfree. congruence.
  - intros e [He|He]%elem_of_app.
    + destruct (Hc1 e He) as (? & ? & ?).
      split_and!; [done..|]. by eapply lookup_weaken.
    + destruct (Hc2 e He) as (? & Hfree & ?). split_and!; [done| |done].
      destruct (R !! ent_name e) eqn:HR; [|done].
      eapply lookup_weaken in HR; [|exact Hsub1]. congruence.
Qed.

(** The entity tagged for a key is the same before and after the registry
    has grown. *)
Lemma entity_for_grows R R' created k :
  registry_grows R R' created → entity_for R' k = entity_for R k.
Proof.
  intros (Hsub & Hnew & _). unfold entity_for.
  destruct (R !! k) as [e|] eqn:HR.
  - by rewrite (lookup_weaken _ _ _ _ HR Hsub).
  - destruct (R' !! k) as [e'|] eqn:HR'; [|done]. simpl.
    by destruct (Hnew k e' HR HR').
Qed.

Lemma add_metadata_tag_spec bf st item :
  let st' := add_metadata_tag bf st item in
  ∃ added,
    Session.records (md_session st') = Session.records (md_session st) ++ added
    ∧ files_of added = [] ∧ assocs_of added = []
    ∧ tags_of added
      = [mkTag (bf_path bf) (entity_for (all_entities st) item.1) item.2 None]
    ∧ all_entities st' !! item.1 = Some (entity_for (all_entities st) item.1)
    ∧ registry_grows (all_entities st) (all_entities st') (entities_of added).
Proof.
  destruct item as [k v]. unfold add_metadata_tag, entity_for. simpl.
  destruct (all_entities st !! k) as [e|] eqn:HR.
  - rewrite bool_decide_eq_true_2 by eauto. rewrite HR. simpl.
    exists [RTag (mkTag (bf_path bf) e v None)].
    rewrite records_add. split_and!; try done. apply registry_grows_refl.
  - rewrite bool_decide_eq_false_2 by (by intros [? ?]). simpl.
    rewrite lookup_insert_eq. simpl.
    exists [REntity (metadata_entity k);
            RTag (mkTag (bf_path bf) (metadata_entity k) v None)].
    rewrite !records_add, <- app_assoc. split_and!; try done.
    + apply lookup_insert_eq.
    + split_and!.
      * by apply insert_subseteq.
      * intros k' e Hn Hs. destruct (decide (k = k')) as [->|Hne].
        -- rewrite lookup_insert_eq in Hs. injection Hs as <-.
           split; [done|]. simpl. by left.
        -- rewrite lookup_insert_ne in Hs by done. congruence.
      * simpl. apply NoDup_singleton.
      * intros e ->%list_elem_of_singleton. simpl.
        split_and!; [done..|]. apply lookup_insert_eq.
Qed.

Lemma fold_metadata_tags_spec bf items st :
  let st' := foldl (add_metadata_tag bf) st items in
  ∃ added,
    Session.records (md_session st') = Session.records (md_session st) ++ added
    ∧ files_of added = [] ∧ assocs_of added = []
    ∧ tags_of added = metadata_tags (all_entities st) bf items
    ∧ (∀ k, k ∈ items.*1 →
            all_entities st' !! k = Some (entity_for (all_entities st) k))
    ∧ registry_grows (all_entities st) (all_entities st') (entities_of added).
Proof.
  revert st. induction items as [|item items IH]; intros st; simpl.
  - exists []. rewrite app_nil_r. split_and!; try done.
    + intros k Hk. by apply elem_of_nil in Hk.
    + apply registry_grows_refl.
  - destruct (add_metadata_tag_spec bf st item)
      as (a1 & Hr1 & Hf1 & Ha1 & Ht1 & Hk1 & Hg1).
    destruct (IH (add_metadata_tag bf st item))
      as (a2 & Hr2 & Hf2 & Ha2 & Ht2 & Hk2 & Hg2).
    exists (a1 ++ a2). rewrite Hr2, Hr1, <- app_assoc.
    rewrite files_of_app, assocs_of_app, tags_of_app, entities_of_app.
    rewrite Hf1, Hf2, Ha1, Ha2, Ht1, Ht2. split_and!; try done.
    + unfold metadata_tags. simpl. f_equal. apply list_fmap_ext.
      intros _ kv _. by rewrite (entity_for_grows _ _ _ _ Hg1).
    + intros k [->|Hk]%elem_of_cons.
      * destruct Hg2 as (Hsub & _). by eapply lookup_weaken.
      * rewrite (Hk2 k Hk). by rewrite (entity_for_grows _ _ _ _ Hg1).
    + by eapply registry_grows_trans.
Qed.

(** ** Associations and consolidation *)

Lemma chain_links paths r : r ∈ chain paths → is_link r = true.
Proof.
  unfold chain. intros (rs & Hr & Hrs)%list_elem_of_join.
  apply elem_of_lookup_imap in Hrs as (i & src & -> & _).
  case_bool_decide; [|by apply elem_of_nil in Hr].
  destruct (paths !! (i + 1)%nat); [|by apply elem_of_nil in Hr].
  apply elem_of_cons in Hr as [->|Hr]; [done|].
  apply list_elem_of_singleton in Hr as ->. done.
Qed.

Lemma metadata_assocs_app rs1 rs2 :
  metadata_assocs (rs1 ++ rs2) = metadata_assocs rs1 ++ metadata_assocs rs2.
Proof. unfold metadata_assocs. by rewrite assocs_of_app, filter_app. Qed.

Lemma links_projections rs :
  (∀ r, r ∈ rs → is_link r = true) →
  files_of rs = [] ∧ tags_of rs = [] ∧ entities_of rs = []
  ∧ metadata_assocs rs = [].
Proof.
  induction rs as [|r rs IH]; intros Hall; [done|].
  destruct IH as (Hf & Ht & He & Ha); [intros r' ?; apply Hall; by right|].
  pose proof (Hall r (list_elem_of_here _ _)) as Hr.
  destruct r as [| | |a]; simpl in Hr; try discriminate.
  change (RAssoc a :: rs) with ([RAssoc a] ++ rs).
  rewrite files_of_app, tags_of_app, entities_of_app, metadata_assocs_app.
  rewrite Hf, Ht, He, Ha. split_and!; try done.
  rewrite app_nil_r. unfold metadata_assocs.
  change (assocs_of [RAssoc a]) with [a].
  rewrite filter_cons_False; [done|].
  apply negb_true_iff, bool_decide_eq_false in Hr. done.
Qed.

Lemma metadata_assocs_no_assocs rs : assocs_of rs = [] → metadata_assocs rs = [].
Proof. unfold metadata_assocs. by intros ->. Qed.

(** A dictionary and the map with the same lookups. *)
Lemma overwrite_lookup (d : Dict.t pyval) (m : gmap string pyval) pl :
  (∀ k, Dict.get k d = m !! k) →
  ∀ k, Dict.get k (Dict.update d pl) = overwrite m pl !! k.
Proof.
  unfold Dict.update, overwrite. revert d m.
  induction pl as [|[k' v] pl IH]; intros d m Hdm k; simpl; [done|].
  apply IH. intros k0. rewrite dict_get_set, lookup_insert.
  case_bool_decide; case_decide; done.
Qed.

Lemma consolidate_cons p payloads :
  consolidate (p :: payloads)
  = file_md ← consolidate payloads; pl ← p.1; Some (Dict.update file_md pl).
Proof. unfold consolidate. by rewrite reverse_cons, foldl_snoc. Qed.

(** Consolidation succeeds on parsed payloads, yields a dictionary with
    distinct keys, and agrees key by key with the specification's merge. *)
Lemma consolidate_spec (payloads : list (option (Dict.t pyval) * string))
    (parsed : list (Dict.t pyval)) :
  payloads.*1 = Some <$> parsed →
  ∃ file_md,
    consolidate payloads = Some file_md
    ∧ NoDup (Dict.keys file_md)
    ∧ ∀ k, Dict.get k file_md = merged_by_proximity parsed !! k.
Proof.
  revert parsed. induction payloads as [|[pl path] payloads IH];
    intros parsed Hp.
  - destruct parsed; [|done]. exists []. split_and!; [done|constructor|done].
  - destruct parsed as [|closest farther]; [done|]. csimpl in Hp.
    injection Hp as -> Hp. destruct (IH farther Hp) as (md & Hmd & Hnd & Hget).
    exists (Dict.update md closest). rewrite consolidate_cons, Hmd.
    split_and!; [done|by apply dict_update_nodup|].
    simpl. by apply overwrite_lookup.
Qed.

(** ** One file of the metadata pass *)

Lemma resolve_file_spec bf payloads ancestors st far file_md :
  last payloads = Some far → consolidate payloads = Some file_md →
  ∃ st' added,
    resolve_file bf payloads ancestors st = Some st'
    ∧ Session.records (md_session st')
      = Session.records (md_session st) ++ added
    ∧ files_of added = []
    ∧ metadata_assocs added
      = [mkAssoc far.2 (bf_path bf) Metadata;
         mkAssoc (bf_path bf) far.2 Metadata]
    ∧ tags_of added = metadata_tags (all_entities st) bf file_md
    ∧ (∀ k, k ∈ Dict.keys file_md →
            all_entities st' !! k = Some (entity_for (all_entities st) k))
    ∧ registry_grows (all_entities st) (all_entities st') (entities_of added).
Proof.
  intros Hlast Hmd. unfold resolve_file. rewrite Hlast, Hmd. simpl.
  set (s3 := Session.add_all (chain ancestors) _).
  destruct (fold_metadata_tags_spec bf file_md (mkMd s3 (all_entities st)))
    as (tagrecs & Hr & Hf & Ha & Ht & Hk & Hg). simpl in *.
  set (st1 := foldl (add_metadata_tag bf) _ file_md) in *.
  destruct (links_projections (chain payloads.*2) (chain_links _))
    as (Hf1 & Ht1 & He1 & Ha1).
  destruct (links_projections (chain ancestors) (chain_links _))
    as (Hf2 & Ht2 & He2 & Ha2).
  exists (if bool_decide (1000 ≤ length (s_new (md_session st1)))%nat
          then mkMd (Session.commit (md_session st1)) (all_entities st1)
          else st1).
  exists ([RAssoc (mkAssoc far.2 (bf_path bf) Metadata);
           RAssoc (mkAssoc (bf_path bf) far.2 Metadata)]
          ++ chain payloads.*2 ++ chain ancestors ++ tagrecs).
  assert (Session.records (md_session st1)
          = Session.records (md_session st)
            ++ [RAssoc (mkAssoc far.2 (bf_path bf) Metadata);
                RAssoc (mkAssoc (bf_path bf) far.2 Metadata)]
            ++ chain payloads.*2 ++ chain ancestors ++ tagrecs) as Hrec.
  { rewrite Hr. unfold s3. rewrite !records_add_all.
    by rewrite <- !app_assoc. }
  split_and!.
  - done.
  - case_bool_decide; simpl; [by rewrite records_commit|done].
  - rewrite !files_of_app, Hf1, Hf2, Hf. done.
  - rewrite !metadata_assocs_app, Ha1, Ha2.
    rewrite (metadata_assocs_no_assocs tagrecs Ha). done.
  - rewrite !tags_of_app, Ht1, Ht2, Ht. done.
  - intros k Hin. case_bool_decide; simpl; by apply Hk.
  - rewrite !entities_of_app, He1, He2. simpl.
    case_bool_decide; simpl; done.
Qed.

(** A file without payloads leaves the state as it is. *)
Lemma resolve_file_no_payloads bf ancestors st :
  resolve_file bf [] ancestors st = Some st.
Proof. done. Qed.

(** Success of a file depends on its payloads only, never on the registry:
    an entity already registered under a key raises no conflict. *)
Lemma resolve_file_total bf payloads ancestors st :
  is_Some (consolidate payloads) →
  is_Some (resolve_file bf payloads ancestors st).
Proof.
  intros [file_md Hmd]. destruct (last payloads) as [far|] eqn:Hlast.
  - destruct (resolve_file_spec bf payloads ancestors st far file_md)
      as (st' & _ & -> & _); done.
  - unfold resolve_file. by rewrite Hlast.
Qed.

(** ** The whole pass *)

Lemma process_files_cons file_data st bf filenames :
  process_files file_data st (bf :: filenames)
  = st1 ← process_file file_data st bf; process_files file_data st1 filenames.
Proof.
  unfold process_files. simpl.
  destruct (process_file file_data st bf) as [st1|]; [done|]. simpl.
  induction filenames as [|bf' filenames IH]; [done|apply IH].
Qed.

Lemma metadata_tags_grows R R' created bf file_md :
  registry_grows R R' created →
  metadata_tags R' bf file_md = metadata_tags R bf file_md.
Proof.
  intros Hg. unfold metadata_tags. apply list_fmap_ext. intros _ kv _.
  by rewrite (entity_for_grows _ _ _ _ Hg).
Qed.

Lemma process_file_grows file_data st bf st' :
  process_file file_data st bf = Some st' →
  ∃ added,
    Session.records (md_session st')
    = Session.records (md_session st) ++ added
    ∧ files_of added = []
    ∧ registry_grows (all_entities st) (all_entities st') (entities_of added)
    ∧ tags_of added = file_tags file_data (all_entities st) bf
    ∧ ∀ file_md k,
        file_metadata file_data bf = Some file_md → k ∈ Dict.keys file_md →
        all_entities st' !! k = Some (entity_for (all_entities st) k).
Proof.
  unfold process_file, file_tags, file_metadata. intros Hstep.
  destruct (ancestry file_data bf) as [[payloads ancestors]|]; simpl in *.
  - destruct (last payloads) as [far|] eqn:Hlast.
    + destruct (consolidate payloads) as [file_md|] eqn:Hmd.
      * destruct (resolve_file_spec bf payloads ancestors st far file_md
                    Hlast Hmd)
          as (st1 & added & Hres & Hr & Hf & _ & Ht & Hk & Hg).
        rewrite Hres in Hstep. injection Hstep as <-.
        exists added. split_and!; [done..|].
        intros md k [= <-]. apply Hk.
      * unfold resolve_file in Hstep. rewrite Hlast, Hmd in Hstep. done.
    + apply last_None in Hlast as ->. injection Hstep as <-.
      exists []. rewrite app_nil_r.
      split_and!; [done..|apply registry_grows_refl|done|].
      intros md k [= <-] Hk. by apply elem_of_nil in Hk.
  - injection Hstep as <-. exists []. rewrite app_nil_r.
    split_and!; [done..|apply registry_grows_refl|done|done].
Qed.

Lemma file_tags_grows file_data R R' created bf :
  registry_grows R R' created →
  file_tags file_data R' bf = file_tags file_data R bf.
Proof.
  intros Hg. unfold file_tags.
  destruct (file_metadata file_data bf); simpl; [|done].
  by eapply metadata_tags_grows.
Qed.

(** The pass as a whole: what it adds to the session and to the registry. *)
Lemma process_files_grows file_data filenames :
  ∀ st st', process_files file_data st filenames = Some st' →
  ∃ added,
    Session.records (md_session st')
    = Session.records (md_session st) ++ added
    ∧ files_of added = []
    ∧ registry_grows (all_entities st) (all_entities st') (entities_of added)
    ∧ tags_of added
      = filenames ≫= file_tags file_data (all_entities st)
    ∧ ∀ bf file_md k,
        bf ∈ filenames →
        file_metadata file_data bf = Some file_md → k ∈ Dict.keys file_md →
        all_entities st' !! k = Some (entity_for (all_entities st) k).
Proof.
  induction filenames as [|bf filenames IH]; intros st st' Hrun.
  - injection Hrun as <-. exists []. rewrite app_nil_r.
    split_and!; [done..|apply registry_grows_refl|done|].
    intros bf md k Hbf. by apply elem_of_nil in Hbf.
  - rewrite process_files_cons in Hrun.
    destruct (process_file file_data st bf) as [st1|] eqn:Hstep; [|done].
    simpl in Hrun.
    destruct (process_file_grows _ _ _ _ Hstep)
      as (a1 & Hr1 & Hf1 & Hg1 & Ht1 & Hk1).
    destruct (IH _ _ Hrun) as (a2 & Hr2 & Hf2 & Hg2 & Ht2 & Hk2).
    exists (a1 ++ a2). rewrite Hr2, Hr1, <- app_assoc.
    rewrite files_of_app, entities_of_app, tags_of_app, Hf1, Hf2, Ht1, Ht2.
    split_and!; [done..|by eapply registry_grows_trans| |].
    + csimpl. f_equal. apply list_bind_ext; [|done]. intros bf'.
      by eapply file_tags_grows.
    + intros bf' md k [->|Hbf]%elem_of_cons Hmd Hk.
      * destruct Hg2 as (Hsub & _). eapply lookup_weaken; [|exact Hsub].
        by eapply Hk1.
      * rewrite (Hk2 bf' md k Hbf Hmd Hk).
        by rewrite (entity_for_grows _ _ _ k Hg1).
Qed.

(** The metadata pass creates no File record. *)
Lemma index_metadata_files L X all_files s s' :
  _index_metadata L X all_files s = Some s' →
  files_of (Session.records s') = files_of (Session.records s).
Proof.
  unfold _index_metadata. intros Hrun.
  destruct (build_file_data X all_files) as [file_data|]; [|done].
  simpl in Hrun.
  destruct (process_files _ _ _) as [st|] eqn:Hpass; [|done].
  injection Hrun as <-.
  destruct (process_files_grows _ _ _ _ Hpass) as (added & Hr & Hf & _).
  rewrite records_commit, Hr, files_of_app, Hf. simpl. by rewrite app_nil_r.
Qed.

(** ** Directories under the reserved prefix *)

(** The loop over subdirectories never looks inside an entry whose path
    falls under the reserved prefix. *)
Lemma index_subdirs_skip L recurse dirpath ds1 name sub sub' ds2 :
  Path.startswith (Path.join dirpath name)
                  (Path.join (root L) "derivatives") = true →
  ∀ fl w,
    index_subdirs L recurse dirpath (ds1 ++ (name, sub) :: ds2) fl w
    = index_subdirs L recurse dirpath (ds1 ++ (name, sub') :: ds2) fl w.
Proof.
  intros Hskip. induction ds1 as [|entry ds1 IH]; intros fl w; simpl.
  - by rewrite Hskip.
  - by rewrite !IH.
Qed.

Lemma index_walk_skip L X force_index filenames ds1 name sub sub' ds2 :
  Path.startswith (Path.join (root L) name)
                  (Path.join (root L) "derivatives") = true →
  index_walk L X force_index (FsDir filenames (ds1 ++ (name, sub) :: ds2))
  = index_walk L X force_index (FsDir filenames (ds1 ++ (name, sub') :: ds2)).
Proof.
  intros Hskip. unfold index_walk. cbn [index_dir].
  rewrite !fmap_app, !fmap_cons. cbn [fst].
  by apply index_subdirs_skip.
Qed.

Lemma index_layout_skip L X force_index index_metadata
    filenames ds1 name sub sub' ds2 :
  Path.startswith (Path.join (root L) name)
                  (Path.join (root L) "derivatives") = true →
  index_layout L X (FsDir filenames (ds1 ++ (name, sub) :: ds2))
               force_index index_metadata
  = index_layout L X (FsDir filenames (ds1 ++ (name, sub') :: ds2))
                 force_index index_metadata.
Proof.
  intros Hskip. unfold index_layout.
  by rewrite (index_walk_skip L X force_index filenames ds1 name sub sub' ds2).
Qed.

(** What a finished run of [index_layout] walked and recorded. *)
Lemma index_layout_ok L X fs force_index index_metadata w :
  index_layout L X fs force_index index_metadata = Some w →
  walk_ok L force_index w.
Proof.
  unfold index_layout. intros Hrun.
  pose proof (index_walk_ok L X force_index fs) as [Hwalked Hfiles].
  destruct index_metadata; [|by injection Hrun as <-].
  destruct (_index_metadata _ _ _ _) as [s|] eqn:Hmd; [|done].
  injection Hrun as <-. split; simpl; [done|].
  rewrite (index_metadata_files _ _ _ _ _ Hmd). done.
Qed.

Lemma reserved_not_walked L force_index w name :
  walk_ok L force_index w →
  Path.startswith (Path.join (root L) name)
                  (Path.join (root L) "derivatives") = true →
  ∀ fl, (Path.join (root L) name, fl) ∉ ws_walked w.
Proof.
  intros [Hwalked _] Hskip fl Hin. apply Hwalked in Hin. congruence.
Qed.

(** C6: whatever the validity predicates and the force-index flags, a call
    of [index_layout] gives the same result whatever lies inside the
    directory [derivatives] of the root; neither the walk nor the finished run
    has walked that directory or any directory under the reserved prefix, and
    every File record comes from a directory that was walked. *)
Theorem C6_derivatives_never_visited
    (L : Layout) (X : Externals) (force_index index_metadata : bool)
    (filenames : list string) (ds1 ds2 : list (string * fsdir))
    (sub : fsdir) (w : walk_state) :
  let fs := FsDir filenames (ds1 ++ ("derivatives", sub) :: ds2) in
  index_layout L X fs force_index index_metadata = Some w
  ∨ w = index_walk L X force_index fs →
  (∀ sub', index_layout L X
             (FsDir filenames (ds1 ++ ("derivatives", sub') :: ds2))
             force_index index_metadata
           = index_layout L X fs force_index index_metadata)
  ∧ (∀ fl, (Path.join (root L) "derivatives", fl) ∉ ws_walked w)
  ∧ (∀ p fl, (p, fl) ∈ ws_walked w →
             Path.startswith p (Path.join (root L) "derivatives") = false)
  ∧ ∀ bf, bf ∈ files_of (Session.records (ws_session w)) →
          ∃ dp fl f, (dp, fl) ∈ ws_walked w ∧ bf_path bf = Path.join dp f.
Proof.
  intros fs Hrun.
  assert (Path.startswith (Path.join (root L) "derivatives")
                          (Path.join (root L) "derivatives") = true) as Hskip.
  { apply (derivatives_prefix_skipped (root L) ""). }
  assert (walk_ok L force_index w) as Hok.
  { destruct Hrun as [Hrun| ->];
      [by eapply index_layout_ok|apply index_walk_ok]. }
  split_and!.
  - intros sub'. by apply index_layout_skip.
  - by eapply reserved_not_walked.
  - apply Hok.
  - intros bf Hbf. destruct Hok as [_ Hfiles].
    destruct (Hfiles bf Hbf) as (dp & fl & f & ? & -> & _). by exists dp, fl, f.
Qed.

Lemma C6_derivatives_never_visited_witness :
  ∃ w, index_layout Fixture.deriv_layout Fixture.forced_ext
         Fixture.deriv_tree true true = Some w
       ∧ (∀ fl, ("/ds/derivatives", fl) ∉ ws_walked w)
       ∧ bf_path <$> files_of (Session.records (ws_session w))
         = ["/ds/a.nii"; "/ds/sub/b.nii"].
Proof.
  eexists. split; [vm_compute; reflexivity|].
  split; [|vm_compute; reflexivity].
  apply (C6_derivatives_never_visited
           Fixture.deriv_layout Fixture.forced_ext true true ["a.nii"] []
           [("derivatives_old", FsDir ["e.nii"] []); ("sub", FsDir ["b.nii"] [])]
           (FsDir ["d.nii"] [("deep", FsDir ["dd.nii"] [])])).
  left. vm_compute. reflexivity.
Defined.

(** C10: the exclusion is a prefix test: every immediate subdirectory of the
    root whose name begins with [derivatives] is skipped like [derivatives]
    itself; the result does not depend on its content, it is never walked,
    and no File record comes from a directory under it. *)
Theorem C10_derivatives_prefix_skipped
    (L : Layout) (X : Externals) (force_index index_metadata : bool)
    (filenames : list string) (ds1 ds2 : list (string * fsdir))
    (rest : string) (sub : fsdir) (w : walk_state) :
  let name := "derivatives" +:+ rest in
  let fs := FsDir filenames (ds1 ++ (name, sub) :: ds2) in
  index_layout L X fs force_index index_metadata = Some w
  ∨ w = index_walk L X force_index fs →
  (∀ sub', index_layout L X (FsDir filenames (ds1 ++ (name, sub') :: ds2))
             force_index index_metadata
           = index_layout L X fs force_index index_metadata)
  ∧ (∀ fl, (Path.join (root L) name, fl) ∉ ws_walked w)
  ∧ ∀ bf, bf ∈ files_of (Session.records (ws_session w)) →
          ∃ dp fl f, (dp, fl) ∈ ws_walked w
            ∧ Path.startswith dp (Path.join (root L) name) = false
            ∧ bf_path bf = Path.join dp f.
Proof.
  intros name fs Hrun.
  pose proof (derivatives_prefix_skipped (root L) rest) as Hskip.
  assert (walk_ok L force_index w) as Hok.
  { destruct Hrun as [Hrun| ->];
      [by eapply index_layout_ok|apply index_walk_ok]. }
  split_and!.
  - intros sub'. by apply index_layout_skip.
  - by eapply reserved_not_walked.
  - intros bf Hbf. destruct Hok as [Hwalked Hfiles].
    destruct (Hfiles bf Hbf) as (dp & fl & f & Hdp & -> & _).
    exists dp, fl, f. split_and!; [done| |done].
    destruct (Path.startswith dp _) eqn:Hunder; [|done].
    apply Hwalked in Hdp. rewrite <- Hdp. symmetry.
    exact (prefix_trans _ _ _ Hskip Hunder).
Qed.

Lemma C10_derivatives_prefix_skipped_witness :
  ∃ w, index_layout Fixture.deriv_layout Fixture.forced_ext
         Fixture.deriv_tree true true = Some w
       ∧ (∀ fl, ("/ds/derivatives_old", fl) ∉ ws_walked w)
       ∧ ws_walked w = [("/ds", true); ("/ds/sub", true)].
Proof.
  eexists. split; [vm_compute; reflexivity|].
  split; [|vm_compute; reflexivity].
  apply (C10_derivatives_prefix_skipped
           Fixture.deriv_layout Fixture.forced_ext true true ["a.nii"]
           [("derivatives", FsDir ["d.nii"] [("deep", FsDir ["dd.nii"] [])])]
           [("sub", FsDir ["b.nii"] [])] "_old" (FsDir ["e.nii"] [])).
  left. vm_compute. reflexivity.
Defined.

(** ** Claims on forced directories and duplicate tags *)

(** C1 fails on the code: [_index_file] reads the [force_index] argument of
    [index_layout], never the flag [index_dir] computes.  Here the directory
    [/ds/extra] matches a force-index pattern and is walked with the flag
    set, the file in it fails validation, [index_layout] was called without
    forcing, and no File record is created. *)
Theorem C1_forced_directory_file_still_validated :
  let w := index_walk Fixture.forced_layout Fixture.forced_ext false
             Fixture.forced_tree in
  force_index_matches Fixture.forced_layout "/ds/extra" = true
  ∧ ("/ds/extra", true) ∈ ws_walked w
  ∧ _validate_file Fixture.forced_layout "/ds/extra/notes.txt" = false
  ∧ files_of (Session.records (ws_session w)) = [].
Proof.
  split_and!; try reflexivity.
  vm_compute. apply list_elem_of_further, list_elem_of_here.
Qed.

(** Records accepted by the store stay accepted when the later ones are
    left out: a run whose records are refused at the end had a commit
    refused at the latest there. *)
Lemma store_accepts_prefix rs more :
  store_accepts (rs ++ more) = true → store_accepts rs = true.
Proof.
  unfold store_accepts. rewrite tags_of_app, assocs_of_app, !fmap_app.
  intros [Ht Ha]%andb_true_iff. apply andb_true_iff.
  apply bool_decide_eq_true in Ht, Ha.
  apply NoDup_app in Ht as [Ht _]. apply NoDup_app in Ha as [Ha _].
  split; by apply bool_decide_eq_true.
Qed.

(** A run that completes on the store leaves at most one Tag per
    (File, Entity) pair. *)
Lemma completed_run_one_tag_per_pair L X fs force_index index_metadata w :
  index_layout_on_store L X fs force_index index_metadata = Some w →
  NoDup (tag_key <$> tags_of (Session.records (ws_session w))).
Proof.
  unfold index_layout_on_store. intros Hrun.
  destruct (index_layout L X fs force_index index_metadata) as [w0|]; [|done].
  simpl in Hrun.
  destruct (store_accepts (Session.records (ws_session w0))) eqn:Hacc; [|done].
  injection Hrun as <-. unfold store_accepts in Hacc.
  apply andb_true_iff in Hacc as [Ht _]. by apply bool_decide_eq_true in Ht.
Qed.

(** C5 fails on the code, by a run that does not complete: the sidecar
    [/ds/bold.json] carries the key [run], the name of an entity already
    tagged on [/ds/run-1_bold.nii] from its file name.  The walk alone
    completes on the store.  The metadata pass finds [run] registered,
    creates no entity and hands the session a second Tag for the same file
    and entity; the store refuses the records, so the final commit raises
    and the run with the metadata pass has no result. *)
Theorem C5_sidecar_key_collision_raises_at_commit :
  let walked := index_walk Fixture.run_layout Fixture.run_ext false
                  Fixture.run_tree in
  index_layout_on_store Fixture.run_layout Fixture.run_ext Fixture.run_tree
    false false = Some walked
  ∧ (∃ w, index_layout Fixture.run_layout Fixture.run_ext Fixture.run_tree
            false true = Some w
          ∧ filter (fun t => tag_key t = ("/ds/run-1_bold.nii", "run"))
                   (tags_of (Session.records (ws_session w)))
            = [mkTag "/ds/run-1_bold.nii" (Fixture.ent "run" false)
                     (PStr "1") (Some "str");
               mkTag "/ds/run-1_bold.nii" (Fixture.ent "run" false)
                     (PInt 2) None]
          ∧ store_accepts (Session.records (ws_session w)) = false)
  ∧ index_layout_on_store Fixture.run_layout Fixture.run_ext Fixture.run_tree
      false true = None.
Proof.
  split_and!.
  - vm_compute. reflexivity.
  - eexists. split_and!; vm_compute; reflexivity.
  - vm_compute. reflexivity.
Qed.

(** ** Claims on the metadata pass *)

Lemma parsed_payloads (payloads : list (option (Dict.t pyval) * string)) :
  Forall (fun p => is_Some p.1) payloads →
  ∃ parsed, payloads.*1 = Some <$> parsed.
Proof.
  induction 1 as [|[pl path] payloads [d Hd] _ [parsed IH]].
  - by exists [].
  - exists (d :: parsed). simpl in Hd. subst pl. csimpl. by rewrite IH.
Qed.

(** C8: a file whose ancestry walk collects no payload leaves the state of
    the pass untouched: no association, no tag and no entity is added, and
    every record already in the session stays as it is. *)
Theorem C8_no_sidecar_nothing_added
    (file_data : gmap string (gmap string (list fd_entry)))
    (st : md_state) (bf : BIDSFile) (ancestors : list string) :
  ancestry file_data bf = Some ([], ancestors) →
  process_file file_data st bf = Some st.
Proof. intros Hanc. unfold process_file. by rewrite Hanc. Qed.

Lemma C8_no_sidecar_nothing_added_witness :
  process_file Fixture.bold_data Fixture.bold_state Fixture.lonely_nii
  = Some Fixture.bold_state.
Proof.
  apply (C8_no_sidecar_nothing_added Fixture.bold_data Fixture.bold_state
           Fixture.lonely_nii []).
  vm_compute. reflexivity.
Defined.

(** C3: for a file whose ancestry walk collected payloads (all of them
    parsed JSON objects), the records added for the file contain exactly two
    [Metadata] associations, one in each direction, between the file and the
    sidecar appended last to [payloads], the farthest one. *)
Theorem C3_metadata_pair_with_last_payload
    (file_data : gmap string (gmap string (list fd_entry)))
    (st : md_state) (bf : BIDSFile)
    (payloads : list (option (Dict.t pyval) * string))
    (ancestors : list string) (far : option (Dict.t pyval) * string) :
  ancestry file_data bf = Some (payloads, ancestors) →
  last payloads = Some far →
  Forall (fun p => is_Some p.1) payloads →
  ∃ st' added,
    process_file file_data st bf = Some st'
    ∧ Session.records (md_session st')
      = Session.records (md_session st) ++ added
    ∧ metadata_assocs added
      = [mkAssoc far.2 (bf_path bf) Metadata;
         mkAssoc (bf_path bf) far.2 Metadata].
Proof.
  intros Hanc Hlast [parsed Hp]%parsed_payloads.
  destruct (consolidate_spec payloads parsed Hp) as (file_md & Hmd & _).
  destruct (resolve_file_spec bf payloads ancestors st far file_md Hlast Hmd)
    as (st' & added & Hres & Hr & _ & Ha & _).
  exists st', added. unfold process_file. rewrite Hanc. done.
Qed.

Lemma C3_metadata_pair_with_last_payload_witness :
  ∃ st' added,
    process_file Fixture.bold_data Fixture.bold_state Fixture.bold_nii
    = Some st'
    ∧ Session.records (md_session st')
      = Session.records (md_session Fixture.bold_state) ++ added
    ∧ metadata_assocs added
      = [mkAssoc "/ds/bold.json" "/ds/sub/x_bold.nii" Metadata;
         mkAssoc "/ds/sub/x_bold.nii" "/ds/bold.json" Metadata].
Proof.
  apply (C3_metadata_pair_with_last_payload Fixture.bold_data
           Fixture.bold_state Fixture.bold_nii Fixture.bold_payloads
           ["/ds/sub/x_bold.nii"]
           (Some [("a", PInt 1); ("b", PInt 2)], "/ds/bold.json")).
  - vm_compute. reflexivity.
  - reflexivity.
  - repeat constructor; simpl; eauto.
Defined.



(** C7: over a pass, the registry [all_entities] only grows; the entities
    added to the session have pairwise distinct names, each is the metadata
    entity of a key that was not registered before and is registered under
    that key afterwards, and every key registered during the pass has its
    entity among them; every file is tagged, for each key of its consolidated
    metadata, with the one entity the registry holds for that key, whatever
    the file; and a key already registered never makes a file fail. *)
Theorem C7_metadata_entity_created_once
    (file_data : gmap string (gmap string (list fd_entry)))
    (st st' : md_state) (filenames : list BIDSFile) :
  process_files file_data st filenames = Some st' →
  ∃ added,
    Session.records (md_session st')
    = Session.records (md_session st) ++ added
    ∧ registry_grows (all_entities st) (all_entities st') (entities_of added)
    ∧ (∀ e, e ∈ entities_of added → ent_is_metadata e = true)
    ∧ tags_of added = filenames ≫= file_tags file_data (all_entities st)
    ∧ (∀ bf file_md k,
         bf ∈ filenames →
         file_metadata file_data bf = Some file_md → k ∈ Dict.keys file_md →
         all_entities st' !! k = Some (entity_for (all_entities st) k))
    ∧ ∀ bf payloads ancestors st0,
        is_Some (consolidate payloads) →
        is_Some (resolve_file bf payloads ancestors st0).
Proof.
  intros Hrun.
  destruct (process_files_grows _ _ _ _ Hrun) as (added & Hr & _ & Hg & Ht & Hk).
  exists added. split_and!; [done..| |done|done|].
  - intros e He. destruct Hg as (_ & _ & _ & Hc).
    destruct (Hc e He) as (-> & _). done.
  - intros bf payloads ancestors st0. apply resolve_file_total.
Qed.

Lemma C7_metadata_entity_created_once_witness :
  ∃ st' added,
    process_files Fixture.bold_data Fixture.bold_state
      [Fixture.bold_nii; Fixture.bold_twin] = Some st'
    ∧ Session.records (md_session st')
      = Session.records (md_session Fixture.bold_state) ++ added
    ∧ entities_of added = [metadata_entity "a"; metadata_entity "b"]
    ∧ tags_of added
      = [mkTag "/ds/sub/x_bold.nii" (metadata_entity "a") (PInt 1) None;
         mkTag "/ds/sub/x_bold.nii" (metadata_entity "b") (PInt 3) None;
         mkTag "/ds/sub/y_bold.nii" (metadata_entity "a") (PInt 1) None;
         mkTag "/ds/sub/y_bold.nii" (metadata_entity "b") (PInt 3) None].
Proof.
  destruct (process_files Fixture.bold_data Fixture.bold_state
              [Fixture.bold_nii; Fixture.bold_twin]) as [st'|] eqn:Hrun;
    [|vm_compute in Hrun; discriminate].
  destruct (C7_metadata_entity_created_once _ _ _ _ Hrun)
    as (added & Hr & _ & _ & Ht & _).
  exists st', added. split; [reflexivity|]. split; [exact Hr|].
  vm_compute in Hrun. injection Hrun as <-.
  apply (f_equal (drop (length (Session.records
                                  (md_session Fixture.bold_state))))) in Hr.
  rewrite drop_app_length in Hr. subst added.
  split; vm_compute; reflexivity.
Defined.

(** * Further properties of the module *)

(** ** [os.path.dirname] after [os.path.join] *)

Lemma chars_app (a b : string) :
  list_ascii_of_string (a +:+ b)
  = list_ascii_of_string a ++ list_ascii_of_string b.
Proof.
  induction a as [|c a IH]; [done|].
  change (String c a +:+ b) with (String c (a +:+ b)). simpl. by rewrite IH.
Qed.

Lemma chars_rev_app (s acc : string) :
  list_ascii_of_string (String.rev_app s acc)
  = reverse (list_ascii_of_string s) ++ list_ascii_of_string acc.
Proof.
  revert acc. induction s as [|c s IH]; intros acc; simpl; [done|].
  rewrite IH, reverse_cons, <- app_assoc. done.
Qed.

Lemma chars_rev (s : string) :
  list_ascii_of_string (String.rev s) = reverse (list_ascii_of_string s).
Proof. unfold String.rev. by rewrite chars_rev_app, app_nil_r. Qed.

Lemma is_sep_dec (c : ascii) :
  Path.is_sep c = if ascii_dec "/" c then true else false.
Proof.
  unfold Path.is_sep, Path.sep. destruct (ascii_dec "/" c) as [<-|Hne].
  - done.
  - apply Ascii.eqb_neq. congruence.
Qed.

Lemma startswith_sep (s : string) :
  Path.startswith s "/"
  = match list_ascii_of_string s with c :: _ => Path.is_sep c | [] => false end.
Proof.
  unfold Path.startswith. destruct s as [|c s]; [done|].
  cbn [String.prefix list_ascii_of_string]. rewrite is_sep_dec.
  by destruct (ascii_dec "/" c), s.
Qed.

Lemma endswith_sep (s : string) :
  Path.endswith s "/"
  = match reverse (list_ascii_of_string s) with
    | c :: _ => Path.is_sep c
    | [] => false
    end.
Proof.
  unfold Path.endswith. change (String.rev "/") with "/".
  fold (Path.startswith (String.rev s) "/").
  by rewrite startswith_sep, chars_rev.
Qed.

Lemma drop_basename_no_sep (l r : list ascii) :
  forallb (fun c => negb (Path.is_sep c)) l = true →
  Path.drop_basename (l ++ r) = Path.drop_basename r.
Proof.
  induction l as [|c l IH]; [done|]. simpl.
  intros [Hc Hl]%andb_true_iff. apply negb_true_iff in Hc. rewrite Hc. auto.
Qed.

Lemma forallb_reverse {A} (f : A → bool) (l : list A) :
  forallb f (reverse l) = forallb f l.
Proof.
  induction l as [|x l IH]; [done|].
  rewrite reverse_cons, forallb_app, IH. simpl. rewrite andb_true_r.
  apply andb_comm.
Qed.

Lemma dirname_chars_join (ld lf : list ascii) :
  forallb (fun c => negb (Path.is_sep c)) lf = true →
  Path.dirname_chars (ld ++ lf)
  = if forallb Path.is_sep (Path.drop_basename (reverse ld))
    then reverse (Path.drop_basename (reverse ld))
    else reverse (Path.strip_seps (Path.drop_basename (reverse ld))).
Proof.
  intros Hf. unfold Path.dirname_chars.
  rewrite reverse_app, drop_basename_no_sep; [done|].
  by rewrite forallb_reverse.
Qed.

Lemma drop_basename_all_seps (l : list ascii) :
  forallb Path.is_sep l = true → Path.drop_basename l = l.
Proof.
  destruct l as [|c l]; [done|]. simpl. by intros [-> _]%andb_true_iff.
Qed.

Lemma no_sep_startswith (f : string) :
  no_sep f = true → Path.startswith f "/" = false.
Proof.
  unfold no_sep. rewrite startswith_sep.
  destruct (list_ascii_of_string f) as [|c l]; [done|]. simpl.
  intros [Hc _]%andb_true_iff. by apply negb_true_iff in Hc.
Qed.

(** X1: for a name without a separator, as [os.walk] lists them, and a
    directory path that does not end with a separator (or consists of
    separators only, like the filesystem root), the directory of the joined
    path is the directory joined: the File record [_index_file] creates for
    an entry of [dirpath] has [dirpath] as its [dirname], the key under which
    the metadata pass stores and looks the file up. *)
Theorem X1_dirname_of_joined_entry (dirpath f : string) :
  no_sep f = true →
  Path.endswith dirpath "/" = false ∨ all_seps dirpath = true →
  Path.dirname (Path.join dirpath f) = dirpath
  ∧ bf_dirname (new_BIDSFile (Path.join dirpath f)) = dirpath.
Proof.
  intros Hf Hd.
  assert (Path.dirname (Path.join dirpath f) = dirpath) as Hdir; [|done].
  unfold Path.join. rewrite (no_sep_startswith f Hf).
  unfold no_sep in Hf. unfold all_seps in Hd. unfold Path.dirname.
  etrans; [|apply (string_of_list_ascii_of_string dirpath)]. f_equal.
  destruct (bool_decide (dirpath = "") || Path.endswith dirpath "/") eqn:Hcase.
  - assert (forallb Path.is_sep (list_ascii_of_string dirpath) = true) as Hall.
    { apply orb_true_iff in Hcase as [Hempty|Hends].
      - apply bool_decide_eq_true in Hempty. by subst dirpath.
      - destruct Hd as [Hd|Hd]; [congruence|done]. }
    rewrite chars_app, (dirname_chars_join _ _ Hf).
    rewrite drop_basename_all_seps by (by rewrite forallb_reverse).
    rewrite forallb_reverse, Hall. apply reverse_involutive.
  - apply orb_false_iff in Hcase as [Hempty Hends].
    apply bool_decide_eq_false in Hempty.
    rewrite !chars_app.
    change (list_ascii_of_string "/") with ["/"%char].
    rewrite app_assoc, (dirname_chars_join _ _ Hf).
    rewrite reverse_app. simpl.
    rewrite endswith_sep in Hends.
    destruct (reverse (list_ascii_of_string dirpath)) as [|c r] eqn:Hrev.
    + apply (f_equal reverse) in Hrev. rewrite reverse_involutive in Hrev.
      destruct dirpath; [done|discriminate].
    + change (Path.is_sep "/") with true. simpl. rewrite Hends. simpl.
      rewrite <- Hrev. apply reverse_involutive.
Qed.

Lemma X1_dirname_of_joined_entry_witness :
  Path.dirname (Path.join "/ds/sub" "x_bold.nii") = "/ds/sub"
  ∧ bf_dirname (new_BIDSFile (Path.join "/ds/sub" "x_bold.nii")) = "/ds/sub".
Proof.
  apply (X1_dirname_of_joined_entry "/ds/sub" "x_bold.nii").
  - reflexivity.
  - left. reflexivity.
Defined.

(** ** More on the directory walk *)

Lemma walk_extends_refl w : walk_extends w w.
Proof. split; exists []; by rewrite app_nil_r. Qed.

Lemma walk_extends_trans w1 w2 w3 :
  walk_extends w1 w2 → walk_extends w2 w3 → walk_extends w1 w3.
Proof.
  intros [[a1 Ha1] [m1 Hm1]] [[a2 Ha2] [m2 Hm2]]. split.
  - exists (a1 ++ a2). by rewrite Ha2, Ha1, app_assoc.
  - exists (m1 ++ m2). by rewrite Hm2, Hm1, app_assoc.
Qed.

Lemma index_file_extends L X force_index f dirpath entities s :
  ∃ added,
    Session.records (_index_file L X force_index f dirpath entities s).2
    = Session.records s ++ added.
Proof.
  rewrite index_file_records. cbv zeta. destruct (_ && _); cbn [snd].
  - exists []. by rewrite app_nil_r.
  - eexists. by rewrite records_add_each, records_add, <- app_assoc.
Qed.

Lemma index_files_extends L X force_index dirpath filenames entities s :
  ∃ added,
    Session.records (index_files L X force_index dirpath filenames entities s)
    = Session.records s ++ added.
Proof.
  unfold index_files. rewrite records_commit. revert s.
  induction filenames as [|f filenames IH]; intros s; simpl.
  - exists []. by rewrite app_nil_r.
  - destruct (IH (_index_file L X force_index f dirpath entities s).2)
      as [a2 Ha2].
    destruct (index_file_extends L X force_index f dirpath entities s)
      as [a1 Ha1].
    exists (a1 ++ a2). by rewrite Ha2, Ha1, app_assoc.
Qed.

(** The File records of one directory: the entries that pass the gate, in
    listing order. *)
Lemma index_files_exact L X force_index dirpath filenames entities s :
  files_of (Session.records
              (index_files L X force_index dirpath filenames entities s))
  = files_of (Session.records s)
    ++ ((fun f => new_BIDSFile (Path.join dirpath f))
        <$> filter (fun f => passes_gate L force_index dirpath f) filenames).
Proof.
  unfold index_files. rewrite records_commit. revert s.
  induction filenames as [|f filenames IH]; intros s; simpl.
  - by rewrite app_nil_r.
  - rewrite IH, index_file_files, <- app_assoc. f_equal.
    rewrite filter_cons.
    assert (negb force_index && negb (_validate_file L (Path.join dirpath f))
            = negb (passes_gate L force_index dirpath f)) as ->.
    { unfold passes_gate. by rewrite negb_orb. }
    by destruct (passes_gate L force_index dirpath f).
Qed.

Lemma index_subdirs_extends L recurse dirpath ds :
  Forall (fun entry : string * fsdir => ∀ d fl w,
            walk_extends w (recurse entry.2 d fl w)) ds →
  ∀ fl w, walk_extends w (index_subdirs L recurse dirpath ds fl w).
Proof.
  induction 1 as [|entry ds Hentry _ IH]; intros fl w; simpl.
  - apply walk_extends_refl.
  - destruct (Path.startswith _ _); [apply IH|].
    destruct (force_index_matches L _).
    { eapply walk_extends_trans; [apply Hentry|apply IH]. }
    destruct (_ && _); [apply IH|].
    eapply walk_extends_trans; [apply Hentry|apply IH].
Qed.

Lemma index_dir_extends L X force_index t :
  ∀ path config parent fl w,
    walk_extends w (index_dir L X force_index t path config parent fl w).
Proof.
  induction t as [filenames dirnames IH] using fsdir_tree_ind.
  intros path config parent fl w. simpl.
  eapply walk_extends_trans; [|apply index_subdirs_extends].
  - split; simpl.
    + apply index_files_extends.
    + by eexists.
  - eapply Forall_impl; [exact IH|]. intros entry Hentry d fl' w'. apply Hentry.
Qed.

Lemma index_subdirs_committed L recurse dirpath ds :
  Forall (fun entry : string * fsdir => ∀ d fl w,
            s_new (ws_session (recurse entry.2 d fl w)) = []) ds →
  ∀ fl w, s_new (ws_session w) = [] →
          s_new (ws_session (index_subdirs L recurse dirpath ds fl w)) = [].
Proof.
  induction 1 as [|entry ds Hentry _ IH]; intros fl w Hw; simpl; [done|].
  destruct (Path.startswith _ _); [by apply IH|].
  destruct (force_index_matches L _); [by apply IH|].
  destruct (_ && _); by apply IH.
Qed.

Lemma index_dir_committed L X force_index t :
  ∀ path config parent fl w,
    s_new (ws_session (index_dir L X force_index t path config parent fl w))
    = [].
Proof.
  induction t as [filenames dirnames IH] using fsdir_tree_ind.
  intros path config parent fl w. simpl.
  apply index_subdirs_committed; [|done].
  eapply Forall_impl; [exact IH|]. intros entry Hentry d fl' w'. apply Hentry.
Qed.

(** X2: when [index_layout] returns, nothing is left pending in the session:
    every directory commits its batch before its subdirectories are walked,
    and the metadata pass commits once more at its end. *)
Theorem X2_index_layout_leaves_nothing_pending
    (L : Layout) (X : Externals) (fs : fsdir)
    (force_index index_metadata : bool) (w : walk_state) :
  index_layout L X fs force_index index_metadata = Some w →
  s_new (ws_session w) = []
  ∧ s_new (ws_session (index_walk L X force_index fs)) = [].
Proof.
  intros Hrun. split; [|apply index_dir_committed].
  unfold index_layout in Hrun. destruct index_metadata.
  - unfold _index_metadata in Hrun.
    destruct (build_file_data X _) as [file_data|]; [|done]. simpl in Hrun.
    destruct (process_files _ _ _) as [st|]; [|done].
    by injection Hrun as <-.
  - injection Hrun as <-. apply index_dir_committed.
Qed.

Lemma X2_index_layout_leaves_nothing_pending_witness :
  ∃ w, index_layout Fixture.bold_layout Fixture.bold_ext Fixture.bold_tree
         false true = Some w
       ∧ s_new (ws_session w) = [].
Proof.
  eexists. split; [vm_compute; reflexivity|].
  apply (X2_index_layout_leaves_nothing_pending Fixture.bold_layout
           Fixture.bold_ext Fixture.bold_tree false true).
  vm_compute. reflexivity.
Defined.

(** X3: [index_dir] records the files of its own directory before anything of
    its subdirectories: the File records it appends start with one record
    per listed file name that passes the gate of [_index_file] (the
    configuration file left out), in listing order. *)
Theorem X3_directory_files_recorded_first
    (L : Layout) (X : Externals) (force_index : bool)
    (filenames : list string) (dirnames : list (string * fsdir))
    (path : string) (config : list Config) (parent : option string)
    (fl : bool) (w : walk_state) :
  ∃ rest,
    files_of (Session.records (ws_session
      (index_dir L X force_index (FsDir filenames dirnames)
                 path config parent fl w)))
    = files_of (Session.records (ws_session w))
      ++ ((fun f => new_BIDSFile (Path.join path f))
          <$> filter (fun f => passes_gate L force_index path f)
                     (listed_files L filenames))
      ++ rest.
Proof.
  cbn [index_dir]. cbv zeta.
  match goal with
  | |- context [index_subdirs L ?r path dirnames fl ?w1] =>
      destruct (index_subdirs_extends L r path dirnames) with (fl := fl) (w := w1)
        as [[added Hadded] _]
  end.
  { apply Forall_forall. intros entry _ d fl' w'. apply index_dir_extends. }
  exists (files_of added). rewrite Hadded, files_of_app. cbn [ws_session].
  by rewrite index_files_exact, <- app_assoc.
Qed.

Lemma index_subdirs_not_descended L recurse dirpath ds1 name sub sub' ds2 :
  descends L (Path.join dirpath name) = false →
  ∀ fl w,
    index_subdirs L recurse dirpath (ds1 ++ (name, sub) :: ds2) fl w
    = index_subdirs L recurse dirpath (ds1 ++ (name, sub') :: ds2) fl w.
Proof.
  unfold descends. intros Hno.
  induction ds1 as [|entry ds1 IH]; intros fl w; simpl.
  - destruct (Path.startswith _ _); [done|]. simpl in Hno.
    apply orb_false_iff in Hno as [[-> ->]%orb_false_iff ->]. done.
  - by rewrite !IH.
Qed.

(** X4: a subdirectory that [index_dir] does not go into (it lies under the
    reserved prefix, or it fails [_validate_dir], matches no force-index
    pattern and the layout has no force-index pattern at all) is never read:
    the walk of the parent gives the same result whatever the subdirectory
    holds, at any depth of the tree. *)
Theorem X4_skipped_subdirectory_never_read
    (L : Layout) (X : Externals) (force_index : bool)
    (filenames : list string) (ds1 ds2 : list (string * fsdir))
    (name : string) (sub sub' : fsdir)
    (path : string) (config : list Config) (parent : option string)
    (fl : bool) (w : walk_state) :
  descends L (Path.join path name) = false →
  index_dir L X force_index (FsDir filenames (ds1 ++ (name, sub) :: ds2))
            path config parent fl w
  = index_dir L X force_index (FsDir filenames (ds1 ++ (name, sub') :: ds2))
              path config parent fl w.
Proof.
  intros Hno. cbn [index_dir]. rewrite !fmap_app, !fmap_cons. cbn [fst].
  by apply index_subdirs_not_descended.
Qed.

Lemma X4_skipped_subdirectory_never_read_witness :
  index_dir (Fixture.layout [] [] ["/ds/sub/tmp"]) Fixture.forced_ext false
            (FsDir ["a.nii"] [("tmp", FsDir ["t.nii"] [])])
            "/ds/sub" [] None false (mkWalk Session.empty [])
  = index_dir (Fixture.layout [] [] ["/ds/sub/tmp"]) Fixture.forced_ext false
              (FsDir ["a.nii"] [("tmp", FsDir [] [])])
              "/ds/sub" [] None false (mkWalk Session.empty []).
Proof.
  apply (X4_skipped_subdirectory_never_read
           (Fixture.layout [] [] ["/ds/sub/tmp"]) Fixture.forced_ext false
           ["a.nii"] [] [] "tmp").
  reflexivity.
Defined.

Lemma flag_after_cons L dirpath entry ds fl :
  flag_after L dirpath (entry :: ds) fl
  = flag_after L dirpath ds
      (fl || negb (Path.startswith (Path.join dirpath entry.1)
                                   (Path.join (root L) "derivatives"))
             && force_index_matches L (Path.join dirpath entry.1)).
Proof. unfold flag_after. simpl. by rewrite orb_assoc. Qed.

(** The loop over a concatenation: the second part starts from the flag and
    the state the first part left. *)
Lemma index_subdirs_app L recurse dirpath ds1 ds2 :
  ∀ fl w,
    index_subdirs L recurse dirpath (ds1 ++ ds2) fl w
    = index_subdirs L recurse dirpath ds2 (flag_after L dirpath ds1 fl)
        (index_subdirs L recurse dirpath ds1 fl w).
Proof.
  induction ds1 as [|entry ds1 IH]; intros fl w.
  - unfold flag_after. simpl. by rewrite orb_false_r.
  - rewrite flag_after_cons. simpl.
    destruct (Path.startswith _ _); simpl.
    { by rewrite orb_false_r, IH. }
    destruct (force_index_matches L _); simpl.
    { by rewrite orb_true_r, IH. }
    rewrite orb_false_r. destruct (_ && _); by rewrite IH.
Qed.

Lemma index_dir_logs L X force_index t path config parent fl w :
  (path, fl) ∈ ws_walked (index_dir L X force_index t path config parent fl w).
Proof.
  destruct t as [filenames dirnames]. cbn [index_dir]. cbv zeta.
  match goal with
  | |- context [index_subdirs L ?r path dirnames fl ?w1] =>
      destruct (index_subdirs_extends L r path dirnames) with (fl := fl) (w := w1)
        as [_ [more Hmore]]
  end.
  { apply Forall_forall. intros entry _ d fl' w'. apply index_dir_extends. }
  rewrite Hmore. cbn [ws_walked]. apply elem_of_app. left.
  apply elem_of_app. right. by left.
Qed.

Lemma index_subdirs_descends L recurse dirpath ds1 name sub ds2 fl w :
  (∀ sub d fl w, walk_extends w (recurse sub d fl w)) →
  (∀ sub d fl w, (d, fl) ∈ ws_walked (recurse sub d fl w)) →
  descends L (Path.join dirpath name) = true →
  (Path.join dirpath name,
   flag_after L dirpath ds1 fl
   || force_index_matches L (Path.join dirpath name))
  ∈ ws_walked (index_subdirs L recurse dirpath
                 (ds1 ++ (name, sub) :: ds2) fl w).
Proof.
  unfold descends. intros Hext Hlog [Hres Hgo]%andb_true_iff.
  apply negb_true_iff in Hres. rewrite index_subdirs_app.
  assert (∀ fl2 w2 x, x ∈ ws_walked w2 →
            x ∈ ws_walked (index_subdirs L recurse dirpath ds2 fl2 w2))
    as Hkeep.
  { intros fl2 w2 x Hx.
    destruct (index_subdirs_extends L recurse dirpath ds2) with (fl := fl2) (w := w2)
      as [_ [more ->]].
    - apply Forall_forall. intros entry _ d fl' w'. apply Hext.
    - apply elem_of_app. by left. }
  cbn [index_subdirs fst snd]. rewrite Hres.
  destruct (force_index_matches L (Path.join dirpath name)) eqn:Hm.
  - rewrite orb_true_r. apply Hkeep, Hlog.
  - rewrite orb_false_r. simpl in Hgo.
    assert (negb (_validate_dir L (Path.join dirpath name))
            && negb (force_index_truthy L) = false) as ->.
    { by rewrite <- negb_orb, Hgo. }
    apply Hkeep, Hlog.
Qed.

Lemma index_dir_descends L X force_index filenames ds1 name sub ds2
    path config parent fl w :
  descends L (Path.join path name) = true →
  (Path.join path name,
   flag_after L path ds1 fl || force_index_matches L (Path.join path name))
  ∈ ws_walked (index_dir L X force_index
                 (FsDir filenames (ds1 ++ (name, sub) :: ds2))
                 path config parent fl w).
Proof.
  intros Hgo. cbn [index_dir]. cbv zeta.
  apply index_subdirs_descends; [| |done].
  - intros sub0 d fl0 w0. apply index_dir_extends.
  - intros sub0 d fl0 w0. apply index_dir_logs.
Qed.

(** X5: a subdirectory outside the reserved prefix that matches a force-index
    pattern, passes [_validate_dir], or belongs to a layout that has any
    force-index pattern, is walked; the flag it is walked with is set if it
    matches a pattern itself, if [index_dir] was called for the parent with
    the flag set, or if a directory listed before it that lies outside the
    reserved prefix matched a pattern ([flag_after]), and is unset
    otherwise.  A directory under the reserved prefix is skipped before the
    patterns are looked at and never sets the flag. *)
Theorem X5_descended_subdirectory_walked
    (L : Layout) (X : Externals) (force_index : bool)
    (filenames : list string) (ds1 ds2 : list (string * fsdir))
    (name : string) (sub : fsdir)
    (path : string) (config : list Config) (parent : option string)
    (fl : bool) (w : walk_state) :
  descends L (Path.join path name) = true →
  (Path.join path name,
   flag_after L path ds1 fl || force_index_matches L (Path.join path name))
  ∈ ws_walked (index_dir L X force_index
                 (FsDir filenames (ds1 ++ (name, sub) :: ds2))
                 path config parent fl w).
Proof. apply index_dir_descends. Qed.

Lemma X5_descended_subdirectory_walked_witness :
  ("/ds/extra", true)
  ∈ ws_walked (index_dir Fixture.forced_layout Fixture.forced_ext false
                 Fixture.forced_tree "/ds" [] None false
                 (mkWalk Session.empty [])).
Proof.
  apply (X5_descended_subdirectory_walked Fixture.forced_layout
           Fixture.forced_ext false [] [] [] "extra" (FsDir ["notes.txt"] [])
           "/ds" [] None false (mkWalk Session.empty [])).
  reflexivity.
Defined.

(** X6: the assignment [force_index = True] in the loop over subdirectories
    outlives the directory that caused it: once a subdirectory outside the
    reserved prefix has matched a force-index pattern, every subdirectory
    listed after it that is walked at all is walked with the flag set,
    whether or not it matches a pattern itself. *)
Theorem X6_force_flag_sticks_to_later_siblings
    (L : Layout) (X : Externals) (force_index : bool)
    (filenames : list string) (ds1 ds2 ds3 : list (string * fsdir))
    (first : string * fsdir) (name : string) (sub : fsdir)
    (path : string) (config : list Config) (parent : option string)
    (fl : bool) (w : walk_state) :
  Path.startswith (Path.join path first.1)
                  (Path.join (root L) "derivatives") = false →
  force_index_matches L (Path.join path first.1) = true →
  descends L (Path.join path name) = true →
  (Path.join path name, true)
  ∈ ws_walked (index_dir L X force_index
                 (FsDir filenames (ds1 ++ first :: ds2 ++ (name, sub) :: ds3))
                 path config parent fl w).
Proof.
  intros Hres Hm Hgo.
  pose proof (index_dir_descends L X force_index filenames
                (ds1 ++ first :: ds2) name sub ds3 path config parent fl w Hgo)
    as Hin.
  rewrite <- app_assoc in Hin. cbn [app] in Hin.
  assert (flag_after L path (ds1 ++ first :: ds2) fl = true) as Hflag.
  { unfold flag_after. apply orb_true_iff. right.
    apply existsb_exists. exists first. split.
    - apply in_or_app. right. by left.
    - by rewrite Hres, Hm. }
  by rewrite Hflag in Hin.
Qed.

Lemma X6_force_flag_sticks_to_later_siblings_witness :
  ("/ds/plain", true)
  ∈ ws_walked (index_dir Fixture.forced_layout Fixture.forced_ext false
                 (FsDir [] [("extra", FsDir [] []); ("plain", FsDir [] [])])
                 "/ds" [] None false (mkWalk Session.empty [])).
Proof.
  apply (X6_force_flag_sticks_to_later_siblings Fixture.forced_layout
           Fixture.forced_ext false [] [] [] []
           ("extra", FsDir [] []) "plain" (FsDir [] [])
           "/ds" [] None false (mkWalk Session.empty [])).
  - reflexivity.
  - reflexivity.
  - reflexivity.
Defined.

(** X7: when [index_layout] is called without [force_index], every File
    record of the index has a path that [layout._validate_file] accepts,
    whatever the force-index patterns of the layout and the flag the walk
    carried: the gate of [_index_file] only reads the argument of
    [index_layout]. *)
Theorem X7_unforced_run_records_valid_files_only
    (L : Layout) (X : Externals) (fs : fsdir) (index_metadata : bool)
    (w : walk_state) :
  index_layout L X fs false index_metadata = Some w →
  ∀ bf, bf ∈ files_of (Session.records (ws_session w)) →
        _validate_file L (bf_path bf) = true.
Proof.
  intros Hrun bf Hbf.
  destruct (index_layout_ok _ _ _ _ _ _ Hrun) as [_ Hfiles].
  destruct (Hfiles bf Hbf) as (dp & fl & f & _ & -> & [Hforce|Hvalid]); done.
Qed.

Lemma X7_unforced_run_records_valid_files_only_witness :
  _validate_file Fixture.bold_layout "/ds/bold.json" = true.
Proof.
  apply (X7_unforced_run_records_valid_files_only Fixture.bold_layout
           Fixture.bold_ext Fixture.bold_tree false
           (index_walk Fixture.bold_layout Fixture.bold_ext false
                       Fixture.bold_tree) eq_refl
           (new_BIDSFile "/ds/bold.json")).
  apply list_elem_of_lookup. exists 0%nat. vm_compute. reflexivity.
Defined.

(** ** More on entity extraction and on the configuration chain *)

Lemma dict_set_elem {V} (k : string) (v : V) (d : Dict.t V) kv :
  kv ∈ Dict.set k v d → kv = (k, v) ∨ kv ∈ d.
Proof.
  induction d as [|[k0 v0] d IH]; simpl.
  - intros ->%list_elem_of_singleton. by left.
  - case_bool_decide.
    + intros [->|Hin]%elem_of_cons; [by left|]. right. by right.
    + intros [->|Hin]%elem_of_cons; [right; by left|].
      destruct (IH Hin) as [->|?]; [by left|]. right. by right.
Qed.

Lemma extract_loop_items X bf es mv :
  NoDup (Dict.keys mv) →
  NoDup (Dict.keys (extract_loop X bf es mv))
  ∧ ∀ kv, kv ∈ extract_loop X bf es mv →
          kv ∈ mv
          ∨ (kv.1 = ent_name kv.2.1 ∧ kv.2.1 ∈ es
             ∧ kv.2.2 = match_file X kv.2.1 bf ∧ is_none kv.2.2 = false).
Proof.
  revert mv. induction es as [|e es IH]; intros mv Hnd; simpl.
  - split; [done|]. intros kv ?. by left.
  - destruct (is_none (match_file X e bf)) eqn:Hm; simpl.
    + destruct (ent_mandatory e).
      * split; [done|]. intros kv ?. by left.
      * destruct (IH mv Hnd) as [Hnd' Hitems]. split; [done|].
        intros kv Hkv. destruct (Hitems kv Hkv) as [?|(? & ? & ? & ?)];
          [by left|]. right. split_and!; [done|by right|done..].
    + destruct (IH (Dict.set (ent_name e) (e, match_file X e bf) mv))
        as [Hnd' Hitems]; [by apply dict_set_nodup|].
      split; [done|]. intros kv Hkv.
      destruct (Hitems kv Hkv) as [Hin|(? & ? & ? & ?)].
      * apply dict_set_elem in Hin as [->|?]; [|by left].
        right. simpl. split_and!; [done|by left|done..].
      * right. split_and!; [done|by right|done..].
Qed.

Lemma tags_of_filename_tags bf (mv : Dict.t (Entity * pyval)) :
  tags_of (filename_tags bf mv)
  = (fun kv => mkTag (bf_path bf) kv.2.1 (PStr (py_str kv.2.2))
                     (Some (ent_dtype kv.2.1))) <$> mv.
Proof.
  unfold filename_tags. induction mv as [|kv mv IH]; [done|].
  rewrite !fmap_cons.
  match goal with
  | |- tags_of (?r :: ?l) = _ => change (tags_of (r :: l)) with (tags_of ([r] ++ l))
  end.
  rewrite tags_of_app, IH. done.
Qed.

(** X8: the tags [_index_file] adds for one file carry pairwise distinct
    entity names; each belongs to the file, carries an entity of the
    dictionary that matches the file, the string form of the matched value
    and the declared type of the entity. *)
Theorem X8_filename_tags_one_per_entity_name
    (L : Layout) (X : Externals) (force_index : bool) (f dirpath : string)
    (entities : Dict.t Entity) (s : session) :
  let bf := new_BIDSFile (Path.join dirpath f) in
  ∃ added,
    Session.records (_index_file L X force_index f dirpath entities s).2
    = Session.records s ++ added
    ∧ NoDup ((fun t => ent_name (tag_entity t)) <$> tags_of added)
    ∧ ∀ t, t ∈ tags_of added →
           tag_file t = Path.join dirpath f
           ∧ tag_entity t ∈ Dict.values entities
           ∧ is_none (match_file X (tag_entity t) bf) = false
           ∧ tag_value t = PStr (py_str (match_file X (tag_entity t) bf))
           ∧ tag_dtype t = Some (ent_dtype (tag_entity t)).
Proof.
  intros bf. rewrite index_file_records. fold bf.
  destruct (_ && _); cbn [snd].
  { exists []. rewrite app_nil_r. split_and!; [done|constructor|].
    intros t Ht. by apply elem_of_nil in Ht. }
  destruct (extract_loop_items X bf (Dict.values entities) [])
    as [Hnd Hitems]; [constructor|].
  fold (_extract_entities X bf entities) in Hnd, Hitems.
  set (mv := _extract_entities X bf entities) in *.
  exists (RFile bf :: filename_tags bf mv).
  assert (tags_of (RFile bf :: filename_tags bf mv)
          = (fun kv => mkTag (bf_path bf) kv.2.1 (PStr (py_str kv.2.2))
                             (Some (ent_dtype kv.2.1))) <$> mv) as Htags.
  { change (RFile bf :: ?l) with ([RFile bf] ++ l). rewrite tags_of_app.
    apply tags_of_filename_tags. }
  rewrite Htags. split_and!.
  - by rewrite records_add_each, records_add, <- app_assoc.
  - rewrite <- list_fmap_compose.
    assert ((fun t => ent_name (tag_entity t))
            ∘ (fun kv : string * (Entity * pyval) =>
                 mkTag (bf_path bf) kv.2.1 (PStr (py_str kv.2.2))
                       (Some (ent_dtype kv.2.1))) <$> mv
            = Dict.keys mv) as ->; [|done].
    unfold Dict.keys. apply list_fmap_ext. intros i kv Hkv. simpl.
    apply list_elem_of_lookup_2 in Hkv.
    destruct (Hitems kv Hkv) as [Hnil|(-> & _)]; [|done].
    by apply elem_of_nil in Hnil.
  - intros t (kv & -> & Hkv)%list_elem_of_fmap. simpl.
    destruct (Hitems kv Hkv) as [Hnil|(_ & Hin & Hval & Hm)].
    { by apply elem_of_nil in Hnil. }
    rewrite <- Hval. done.
Qed.

(** X9: when no mandatory entity misses and entity names are pairwise
    distinct, [_extract_entities] returns one item per matching entity, in
    the iteration order of the dictionary. *)
Theorem X9_extraction_complete_without_mandatory_miss
    (X : Externals) (bf : BIDSFile) (entities : Dict.t Entity) :
  NoDup (ent_name <$> Dict.values entities) →
  (∀ e, e ∈ Dict.values entities → ent_mandatory e = true →
        is_none (match_file X e bf) = false) →
  _extract_entities X bf entities
  = matched_items X bf (Dict.values entities).
Proof.
  intros Hnd Hman. unfold _extract_entities.
  rewrite <- (app_nil_r (Dict.values entities)) at 1.
  rewrite extract_loop_no_break; [done..|].
  intros e _ Hin. by apply elem_of_nil in Hin.
Qed.

Lemma X9_extraction_complete_without_mandatory_miss_witness :
  _extract_entities Fixture.bold_ext Fixture.bold_nii
    [("suffix", Fixture.ent "suffix" false);
     ("extension", Fixture.ent "extension" true);
     ("run", Fixture.ent "run" false)]
  = [("suffix", (Fixture.ent "suffix" false, PStr "bold"));
     ("extension", (Fixture.ent "extension" true, PStr "nii"))].
Proof.
  rewrite (X9_extraction_complete_without_mandatory_miss Fixture.bold_ext
             Fixture.bold_nii).
  - reflexivity.
  - apply (bool_decide_unpack _). vm_compute. exact I.
  - intros e He Hman.
    apply elem_of_cons in He as [->|He]; [reflexivity|].
    apply elem_of_cons in He as [->|He]; [reflexivity|].
    apply list_elem_of_singleton in He as ->. discriminate.
Defined.

Lemma dict_get_app {V} (k : string) (d1 d2 : Dict.t V) :
  Dict.get k (d1 ++ d2)
  = match Dict.get k d1 with Some v => Some v | None => Dict.get k d2 end.
Proof.
  induction d1 as [|[k0 v0] d1 IH]; simpl; [done|]. by case_bool_decide.
Qed.

(** [update]: the last item of [other] for a key wins over the dictionary. *)
Lemma dict_get_update {V} (k : string) (d other : Dict.t V) :
  Dict.get k (Dict.update d other)
  = match Dict.get k (reverse other) with
    | Some v => Some v
    | None => Dict.get k d
    end.
Proof.
  unfold Dict.update. revert d.
  induction other as [|[k0 v0] other IH]; intros d; simpl; [done|].
  rewrite IH, reverse_cons, dict_get_app, dict_get_set. simpl.
  destruct (Dict.get k (reverse other)); [done|]. by case_bool_decide.
Qed.

Lemma dict_keys_update_prefix {V} (d other : Dict.t V) :
  Dict.keys d `prefix_of` Dict.keys (Dict.update d other).
Proof.
  unfold Dict.update. revert d.
  induction other as [|[k0 v0] other IH]; intros d; simpl; [done|].
  etrans; [|apply IH]. rewrite dict_keys_set. case_bool_decide; [done|].
  by apply prefix_app_r.
Qed.

Lemma merge_entities_snoc (config : list Config) (c : Config) :
  merge_entities (config ++ [c])
  = Dict.update (merge_entities config) (cfg_entities c).
Proof. unfold merge_entities. by rewrite fold_left_app. Qed.

Lemma merge_entities_nodup (config : list Config) :
  NoDup (Dict.keys (merge_entities config)).
Proof.
  induction config as [|c config IH] using rev_ind; [constructor|].
  rewrite merge_entities_snoc. by apply dict_update_nodup.
Qed.

(** X10: a configuration appended to the chain adds to the merged entity
    dictionary and never removes from it: a name it declares gets its entity
    (its last declaration), every other name keeps the entity it had, the
    names already present keep their place in the iteration order with the
    new ones after them, and no name occurs twice. *)
Theorem X10_deeper_config_adds_and_overrides
    (config : list Config) (c : Config) :
  (∀ k, Dict.get k (merge_entities (config ++ [c]))
        = match Dict.get k (reverse (cfg_entities c)) with
          | Some e => Some e
          | None => Dict.get k (merge_entities config)
          end)
  ∧ Dict.keys (merge_entities config)
    `prefix_of` Dict.keys (merge_entities (config ++ [c]))
  ∧ NoDup (Dict.keys (merge_entities (config ++ [c]))).
Proof.
  split_and!.
  - intros k. rewrite merge_entities_snoc. apply dict_get_update.
  - rewrite merge_entities_snoc. apply dict_keys_update_prefix.
  - apply merge_entities_nodup.
Qed.

Lemma dict_update_insert {V} (d other : Dict.t V) (m : gmap string V) :
  (∀ k, Dict.get k d = m !! k) →
  ∀ k, Dict.get k (Dict.update d other)
       = foldl (fun m kv => <[kv.1 := kv.2]> m) m other !! k.
Proof.
  unfold Dict.update. revert d m.
  induction other as [|[k' v] other IH]; intros d m Hdm k; simpl; [done|].
  apply IH. intros k0. rewrite dict_get_set, lookup_insert.
  case_bool_decide; case_decide; done.
Qed.

(** X11: the registry [all_entities] the metadata pass starts from holds,
    name by name, the merge of the configurations of [layout.config] in
    order, the later one winning: the dictionary [index_dir] computes from
    the chain [index_layout] passes it for the root, before the
    configuration file of any directory (that of the root included) is
    appended to the chain. *)
Theorem X11_registry_starts_as_root_entities (L : Layout) (k : string) :
  initial_entities L !! k
  = Dict.get k (merge_entities (Dict.values (config L))).
Proof.
  unfold initial_entities, merge_entities.
  generalize (Dict.values (config L)). intros configs.
  assert (∀ (d : Dict.t Entity) (m : gmap string Entity),
            (∀ k, Dict.get k d = m !! k) →
            foldl (fun m c => foldl (fun m kv => <[kv.1 := kv.2]> m) m
                                    (cfg_entities c)) m configs !! k
            = Dict.get k (fold_left (fun d c => Dict.update d (cfg_entities c))
                                    configs d)) as Hgen.
  { induction configs as [|c configs IH]; intros d m Hdm; simpl; [done|].
    apply IH. intros k0. by apply dict_update_insert. }
  by apply Hgen.
Qed.

(** ** More on the metadata pass *)

Lemma dict_get_is_Some {V} (k : string) (d : Dict.t V) :
  k ∈ Dict.keys d ↔ is_Some (Dict.get k d).
Proof.
  unfold Dict.keys. induction d as [|[k0 v0] d IH]; csimpl.
  - split; [intros H; by apply elem_of_nil in H|by intros [? ?]].
  - case_bool_decide as Hk.
    + subst. split; [eauto|]. intros _. by left.
    + rewrite elem_of_cons, IH. split; [|intros ?; by right].
      intros [?|?]; [congruence|done].
Qed.

Lemma py_eq_refl (v : pyval) : py_eq v v = true.
Proof. destruct v; simpl; by rewrite ?bool_decide_eq_true_2. Qed.

(** X12: the test that admits a sidecar or a sibling for a file holds exactly
    when every entity key of the candidate is a key of the file with an equal
    value; a candidate without any entity is admitted for every file, and a
    file admits itself. *)
Theorem X12_candidate_admitted_iff_entities_agree
    (file_ents ents : Dict.t pyval) :
  (consumed_by file_ents ents = true
   ↔ ∀ k, k ∈ Dict.keys ents →
          ∃ v w, Dict.get k ents = Some v ∧ Dict.get k file_ents = Some w
                 ∧ py_eq v w = true)
  ∧ consumed_by file_ents [] = true
  ∧ consumed_by file_ents file_ents = true.
Proof.
  assert (consumed_by file_ents ents = true
          ↔ ∀ k, k ∈ Dict.keys ents →
                 ∃ v w, Dict.get k ents = Some v ∧ Dict.get k file_ents = Some w
                        ∧ py_eq v w = true) as Hiff.
  { unfold consumed_by. split.
    - intros Hc k Hk.
      destruct (existsb _ _) eqn:Hex; [done|].
      rewrite forallb_forall in Hc.
      pose proof (Hc k (proj1 (list_elem_of_In _ _) Hk)) as Heq.
      assert (Dict.mem k file_ents = true) as Hmem.
      { destruct (Dict.mem k file_ents) eqn:Hm; [done|].
        assert (existsb (fun k => negb (Dict.mem k file_ents)) (Dict.keys ents)
                = true) as Hex'; [|congruence].
        apply existsb_exists. exists k.
        split; [by apply list_elem_of_In|by rewrite Hm]. }
      unfold Dict.mem in Hmem.
      apply dict_get_is_Some in Hk as [v Hv].
      destruct (Dict.get k file_ents) as [w|] eqn:Hw; [|done].
      exists v, w. unfold getitem in Heq. rewrite Hv, Hw in Heq. done.
    - intros Hall.
      assert (existsb (fun k => negb (Dict.mem k file_ents)) (Dict.keys ents)
              = false) as ->.
      { apply not_true_is_false. intros (k & Hk & Hm)%existsb_exists.
        apply list_elem_of_In in Hk.
        destruct (Hall k Hk) as (v & w & _ & Hw & _).
        unfold Dict.mem in Hm. by rewrite Hw in Hm. }
      apply forallb_forall. intros k Hk%list_elem_of_In.
      destruct (Hall k Hk) as (v & w & Hv & Hw & Heq).
      unfold getitem. by rewrite Hv, Hw. }
  split; [exact Hiff|]. split; [done|].
  clear Hiff. unfold consumed_by.
  assert (existsb (fun k => negb (Dict.mem k file_ents)) (Dict.keys file_ents)
          = false) as ->.
  { apply not_true_is_false. intros (k & Hk & Hm)%existsb_exists.
    apply list_elem_of_In, dict_get_is_Some in Hk as [v Hv].
    unfold Dict.mem in Hm. by rewrite Hv in Hm. }
  apply forallb_forall. intros k _. apply py_eq_refl.
Qed.

Lemma store_file_None X file_data bf :
  store_file X file_data bf = None
  ↔ reads_json bf = true ∧ json_load X (bf_path bf) = None.
Proof.
  unfold store_file, reads_json.
  destruct (negb (is_none (pop_value "suffix" (bf_entities bf)))
            && negb (is_none (pop_value "extension"
                                (Dict.remove "suffix" (bf_entities bf)))));
    simpl; [|split; [done|by intros [? _]]].
  destruct (py_eq _ _); simpl; [|split; [done|by intros [? _]]].
  destruct (json_load X (bf_path bf)); simpl; split; try done.
  by intros [_ ?].
Qed.

Lemma store_file_lookup X file_data bf file_data' key dirname :
  store_file X file_data bf = Some file_data' →
  fd_lookup file_data' key dirname
  = fd_lookup file_data key dirname
    ++ (if bool_decide (file_key bf = Some key ∧ bf_dirname bf = dirname)
        then [file_entry X bf] else []).
Proof.
  unfold store_file, file_key, file_entry, file_ents_of.
  destruct (negb (is_none (pop_value "suffix" (bf_entities bf)))
            && negb (is_none (pop_value "extension"
                                (Dict.remove "suffix" (bf_entities bf)))));
    simpl.
  2:{ intros [= <-]. by rewrite app_nil_r. }
  set (ext := pop_value "extension" (Dict.remove "suffix" (bf_entities bf))).
  set (key0 := py_str ext +:+ "/" +:+ py_str _).
  set (ents := Dict.remove "extension" _).
  intros Hstore.
  assert (∃ payload,
            (if py_eq ext (PStr "json") then json_load X (bf_path bf) else None)
            = payload
            ∧ file_data'
              = <[key0 := <[bf_dirname bf :=
                     default [] (default ∅ (file_data !! key0) !! bf_dirname bf)
                     ++ [(ents, payload, bf_path bf)]]>
                   (default ∅ (file_data !! key0))]> file_data)
    as (payload & -> & ->).
  { destruct (py_eq ext (PStr "json")); simpl in Hstore.
    - destruct (json_load X (bf_path bf)) as [pl|]; simpl in Hstore; [|done].
      injection Hstore as <-. eauto.
    - injection Hstore as <-. eauto. }
  unfold fd_lookup. destruct (decide (key0 = key)) as [->|Hkey].
  - rewrite lookup_insert_eq. simpl.
    destruct (decide (bf_dirname bf = dirname)) as [->|Hdir].
    + rewrite lookup_insert_eq, bool_decide_eq_true_2 by done. simpl.
      by destruct (file_data !! key).
    + rewrite lookup_insert_ne by done.
      rewrite bool_decide_eq_false_2 by (by intros [_ ?]).
      rewrite app_nil_r. by destruct (file_data !! key).
  - rewrite lookup_insert_ne by done.
    rewrite bool_decide_eq_false_2 by (intros [[= ?] _]; done).
    by rewrite app_nil_r.
Qed.

Lemma build_failed X (all_files : list BIDSFile) :
  foldl (fun acc bf => file_data ← acc; store_file X file_data bf)
        None all_files = None.
Proof. induction all_files as [|bf all_files IH]; [done|apply IH]. Qed.

Lemma build_from_lookup X (all_files : list BIDSFile) :
  ∀ fd0 file_data key dirname,
    foldl (fun acc bf => file_data ← acc; store_file X file_data bf)
          (Some fd0) all_files = Some file_data →
    fd_lookup file_data key dirname
    = fd_lookup fd0 key dirname
      ++ (file_entry X
          <$> filter (fun bf => file_key bf = Some key
                                ∧ bf_dirname bf = dirname) all_files).
Proof.
  induction all_files as [|bf all_files IH]; intros fd0 fd key dirname Hrun.
  - injection Hrun as <-. by rewrite app_nil_r.
  - simpl in Hrun. destruct (store_file X fd0 bf) as [fd1|] eqn:Hstore.
    + rewrite (IH _ _ _ _ Hrun), (store_file_lookup _ _ _ _ _ _ Hstore).
      rewrite filter_cons, <- app_assoc. f_equal.
      case_bool_decide; [by rewrite decide_True|by rewrite decide_False].
    + by rewrite build_failed in Hrun.
Qed.

(** X13: the store [file_data] built by the first loop holds, under each
    extension/suffix key and each directory, exactly the files of
    [all_files] that have that key and that directory, in the order of
    [all_files], each with its entities apart from suffix and extension, its
    parsed content if its extension is [json], and its path; a file without
    a suffix or an extension is stored nowhere. *)
Theorem X13_file_data_groups_files_by_key_and_directory
    (X : Externals) (all_files : list BIDSFile)
    (file_data : gmap string (gmap string (list fd_entry)))
    (key dirname : string) :
  build_file_data X all_files = Some file_data →
  fd_lookup file_data key dirname
  = file_entry X
    <$> filter (fun bf => file_key bf = Some key ∧ bf_dirname bf = dirname)
               all_files.
Proof.
  intros Hrun. unfold build_file_data in Hrun.
  by rewrite (build_from_lookup _ _ _ _ key dirname Hrun).
Qed.

Lemma X13_file_data_groups_files_by_key_and_directory_witness :
  fd_lookup Fixture.bold_data "json/bold" "/ds/sub"
  = file_entry Fixture.bold_ext
    <$> filter (fun bf => file_key bf = Some "json/bold"
                          ∧ bf_dirname bf = "/ds/sub") Fixture.bold_files.
Proof.
  apply (X13_file_data_groups_files_by_key_and_directory Fixture.bold_ext
           Fixture.bold_files Fixture.bold_data).
  vm_compute. reflexivity.
Defined.

(** X14: the first loop fails exactly when [json.load] fails on a file it
    opens, that is on a file of [all_files] that has a suffix and whose
    extension is [json]; no other file is opened. *)
Theorem X14_file_data_fails_iff_a_sidecar_does_not_parse
    (X : Externals) (all_files : list BIDSFile) :
  build_file_data X all_files = None
  ↔ ∃ bf, bf ∈ all_files ∧ reads_json bf = true
          ∧ json_load X (bf_path bf) = None.
Proof.
  unfold build_file_data. generalize (∅ : gmap string (gmap string (list fd_entry))).
  induction all_files as [|bf all_files IH]; intros fd0; simpl.
  - split; [done|]. intros (bf & Hbf & _). by apply elem_of_nil in Hbf.
  - destruct (store_file X fd0 bf) as [fd1|] eqn:Hstore.
    + rewrite IH. split.
      * intros (bf' & ? & ? & ?). exists bf'. split; [by right|done].
      * intros (bf' & [->|?]%elem_of_cons & Hr & Hj).
        -- assert (store_file X fd0 bf = None) as Hn
             by (by apply store_file_None).
           congruence.
        -- by exists bf'.
    + rewrite build_failed. split; [|done]. intros _.
      apply store_file_None in Hstore as [? ?]. exists bf.
      split; [by left|done].
Qed.

(** X15: the ancestry walk of a file is the loop of the source: it visits
    the directory it is given; if that directory is its own parent (the
    filesystem root, or the empty path of a relative one) it stops, and
    otherwise it goes on from the parent with what it has collected.  The
    bound on the number of rounds is never what stops it. *)
Theorem X15_ancestry_walk_is_the_loop
    (file_data : gmap string (gmap string (list fd_entry)))
    (file_ents : Dict.t pyval) (json_key ext_key dirname : string) :
  collect file_data file_ents json_key ext_key dirname
  = let acc := visit_dir file_data file_ents json_key ext_key dirname
                         ([], []) in
    let parent := Path.dirname dirname in
    if bool_decide (parent = dirname) then acc
    else walk_up (String.length parent) file_data file_ents json_key ext_key
                 parent acc.
Proof. apply walk_up_unfold. Qed.

Lemma visit_dir_prefix file_data file_ents json_key ext_key dirname acc :
  acc.1 `prefix_of`
    (visit_dir file_data file_ents json_key ext_key dirname acc).1
  ∧ acc.2 `prefix_of`
      (visit_dir file_data file_ents json_key ext_key dirname acc).2.
Proof. unfold visit_dir. simpl. split; by apply prefix_app_r. Qed.

Lemma walk_up_prefix fuel file_data file_ents json_key ext_key :
  ∀ dirname acc,
    acc.1 `prefix_of`
      (walk_up fuel file_data file_ents json_key ext_key dirname acc).1
    ∧ acc.2 `prefix_of`
        (walk_up fuel file_data file_ents json_key ext_key dirname acc).2.
Proof.
  induction fuel as [|fuel IH]; intros dirname acc; simpl.
  - destruct (visit_dir_prefix file_data file_ents json_key ext_key dirname acc).
    by case_bool_decide.
  - destruct (visit_dir_prefix file_data file_ents json_key ext_key dirname acc)
      as [H1 H2].
    case_bool_decide; [done|].
    destruct (IH (Path.dirname dirname)
                 (visit_dir file_data file_ents json_key ext_key dirname acc))
      as [H3 H4].
    split; by etrans.
Qed.

Lemma collect_own_prefix file_data file_ents json_key ext_key dirname :
  (visit_dir file_data file_ents json_key ext_key dirname ([], [])).1
    `prefix_of` (collect file_data file_ents json_key ext_key dirname).1
  ∧ (visit_dir file_data file_ents json_key ext_key dirname ([], [])).2
      `prefix_of` (collect file_data file_ents json_key ext_key dirname).2.
Proof.
  unfold collect. rewrite walk_up_unfold. cbv zeta.
  case_bool_decide; [done|]. apply walk_up_prefix.
Qed.

(** X16: what the file's own directory contributes comes first: the payloads
    and the sibling paths found in the starting directory are a prefix of the
    lists the ancestry walk returns, so that a sidecar next to the file
    precedes every sidecar found further up. *)
Theorem X16_own_directory_comes_first
    (file_data : gmap string (gmap string (list fd_entry)))
    (file_ents : Dict.t pyval) (json_key ext_key dirname : string) :
  let own := visit_dir file_data file_ents json_key ext_key dirname ([], []) in
  let found := collect file_data file_ents json_key ext_key dirname in
  own.1 `prefix_of` found.1 ∧ own.2 `prefix_of` found.2.
Proof.
  intros own found. apply collect_own_prefix.
Qed.

Lemma consumed_by_refl (ents : Dict.t pyval) : consumed_by ents ents = true.
Proof.
  unfold consumed_by.
  assert (existsb (fun k => negb (Dict.mem k ents)) (Dict.keys ents) = false)
    as ->.
  { apply not_true_is_false. intros (k & Hk & Hm)%existsb_exists.
    apply list_elem_of_In, dict_get_is_Some in Hk as [v Hv].
    unfold Dict.mem in Hm. by rewrite Hv in Hm. }
  apply forallb_forall. intros k _. apply py_eq_refl.
Qed.

(** X17: every file of [all_files] that has a suffix and an extension finds
    itself on its ancestry walk: its own path is among the [ancestors] it
    collects, because it is stored under its own key and directory and
    passes the test against its own entities. *)
Theorem X17_file_is_among_its_own_ancestors
    (X : Externals) (all_files : list BIDSFile)
    (file_data : gmap string (gmap string (list fd_entry)))
    (bf : BIDSFile) (payloads : list (option (Dict.t pyval) * string))
    (ancestors : list string) :
  build_file_data X all_files = Some file_data →
  bf ∈ all_files →
  ancestry file_data bf = Some (payloads, ancestors) →
  bf_path bf ∈ ancestors.
Proof.
  intros Hbuild Hbf Hanc. unfold ancestry in Hanc.
  set (suffix := pop_value "suffix" (bf_entities bf)) in *.
  set (ext := pop_value "extension" (Dict.remove "suffix" (bf_entities bf))) in *.
  destruct (is_none suffix || is_none ext) eqn:Hnone; [done|].
  apply orb_false_iff in Hnone as [Hs He].
  injection Hanc as Hanc.
  set (ext_key := py_str ext +:+ "/" +:+ py_str suffix) in *.
  fold (file_ents_of bf) in Hanc.
  destruct (collect_own_prefix file_data (file_ents_of bf)
              ("json/" +:+ py_str suffix) ext_key (bf_dirname bf)) as [_ Hpre].
  rewrite Hanc in Hpre. simpl in Hpre.
  eapply elem_of_prefix; [|exact Hpre].
  apply list_elem_of_fmap. exists (file_entry X bf). split; [done|].
  apply list_elem_of_filter. split.
  - simpl. apply Is_true_true. apply consumed_by_refl.
  - unfold build_file_data in Hbuild.
    rewrite (build_from_lookup _ _ _ _ ext_key (bf_dirname bf) Hbuild).
    apply elem_of_app. right.
    apply list_elem_of_fmap. exists bf. split; [done|].
    apply list_elem_of_filter. split; [|done]. split; [|done].
    unfold file_key. fold suffix ext. by rewrite Hs, He.
Qed.

Lemma X17_file_is_among_its_own_ancestors_witness :
  "/ds/sub/x_bold.nii" ∈ ["/ds/sub/x_bold.nii"].
Proof.
  apply (X17_file_is_among_its_own_ancestors Fixture.bold_ext
           Fixture.bold_files Fixture.bold_data Fixture.bold_nii
           Fixture.bold_payloads ["/ds/sub/x_bold.nii"]).
  - vm_compute. reflexivity.
  - apply list_elem_of_lookup. exists 2%nat. vm_compute. reflexivity.
  - vm_compute. reflexivity.
Defined.

Lemma consolidate_None payloads :
  consolidate payloads = None ↔ ∃ p, p ∈ payloads ∧ p.1 = None.
Proof.
  induction payloads as [|p payloads IH].
  - split; [done|]. intros (p & Hp & _). by apply elem_of_nil in Hp.
  - rewrite consolidate_cons. destruct (consolidate payloads) as [md|]; simpl.
    + destruct p.1 as [pl|] eqn:Hp; simpl.
      * split; [done|]. intros (p' & [->|Hin]%elem_of_cons & Hnone).
        -- congruence.
        -- assert (Some md = None) as Habs; [|done].
           apply IH. by exists p'.
      * split; [|done]. intros _. exists p. split; [by left|done].
    + split; [|done]. intros _.
      destruct (proj1 IH eq_refl) as (p' & ? & ?). exists p'.
      split; [by right|done].
Qed.

(** X18: processing a file raises if one of the payloads collected for it is
    [None], the value stored for a file whose extension is not [json]
    ([update] raises on it), and goes through if every collected payload is
    a parsed JSON object; in particular a file without payloads never
    fails. *)
Theorem X18_resolve_raises_on_missing_payload
    (bf : BIDSFile) (payloads : list (option (Dict.t pyval) * string))
    (ancestors : list string) (st : md_state) :
  ((∃ p, p ∈ payloads ∧ p.1 = None) →
   resolve_file bf payloads ancestors st = None)
  ∧ (Forall (fun p => is_Some p.1) payloads →
     is_Some (resolve_file bf payloads ancestors st)).
Proof.
  split.
  - intros Hnone. apply consolidate_None in Hnone as Hmd.
    destruct (last payloads) as [far|] eqn:Hlast.
    + unfold resolve_file. by rewrite Hlast, Hmd.
    + apply last_None in Hlast as ->.
      destruct Hnone as (p & Hp & _). by apply elem_of_nil in Hp.
  - intros [parsed Hp]%parsed_payloads.
    destruct (consolidate_spec payloads parsed Hp) as (md & Hmd & _).
    apply resolve_file_total. by rewrite Hmd.
Qed.

Lemma X18_resolve_raises_on_missing_payload_witness :
  resolve_file Fixture.bold_nii [(None, "/ds/sub/x_bold.nii")] []
               Fixture.bold_state = None
  ∧ is_Some (resolve_file Fixture.bold_nii Fixture.bold_payloads
               ["/ds/sub/x_bold.nii"] Fixture.bold_state).
Proof.
  split.
  - apply (X18_resolve_raises_on_missing_payload Fixture.bold_nii
             [(None, "/ds/sub/x_bold.nii")] [] Fixture.bold_state).
    exists (None, "/ds/sub/x_bold.nii"). split; [|reflexivity].
    apply list_elem_of_here.
  - apply (X18_resolve_raises_on_missing_payload Fixture.bold_nii
             Fixture.bold_payloads ["/ds/sub/x_bold.nii"] Fixture.bold_state).
    repeat constructor; simpl; eauto.
Defined.

Lemma chain_cons_cons (a b : string) (rest : list string) :
  chain (a :: b :: rest)
  = [RAssoc (mkAssoc a b Child); RAssoc (mkAssoc b a Parent)]
    ++ chain (b :: rest).
Proof.
  unfold chain. rewrite imap_cons. cbn [mjoin list_join].
  rewrite bool_decide_eq_true_2 by (simpl; lia).
  cbn [lookup list_lookup Nat.add]. f_equal. f_equal.
  apply imap_ext. intros i src _. simpl.
  replace (i + 1)%nat with (S i) by lia. simpl.
  rewrite (bool_decide_ext (S (S i) < S (S (length rest)))%nat
                           (S i < S (length rest))%nat) by lia.
  done.
Qed.

(** X19: the inheritance chain over a visitation-ordered list of paths links
    each path to the next one and nothing else: a [Child] edge from the
    closer to the farther path followed by the [Parent] edge back, for every
    consecutive pair in order; a list of fewer than two paths gives no edge,
    and a list of [n] paths gives [2 * (n - 1)] edges. *)
Theorem X19_chain_links_consecutive_paths :
  chain [] = []
  ∧ (∀ a, chain [a] = [])
  ∧ (∀ a b rest,
       chain (a :: b :: rest)
       = [RAssoc (mkAssoc a b Child); RAssoc (mkAssoc b a Parent)]
         ++ chain (b :: rest))
  ∧ ∀ paths, length (chain paths) = (2 * (length paths - 1))%nat.
Proof.
  split_and!; [done|done|apply chain_cons_cons|].
  intros paths. induction paths as [|a [|b rest] IH]; [done|done|].
  rewrite chain_cons_cons, length_app, IH. simpl. lia.
Qed.

Lemma chain_converse (paths : list string) (a : FileAssociation) :
  a ∈ assocs_of (chain paths) → converse a ∈ assocs_of (chain paths).
Proof.
  induction paths as [|x [|y rest] IH]; [intros H; by apply elem_of_nil in H..|].
  rewrite chain_cons_cons, assocs_of_app.
  change (assocs_of [RAssoc (mkAssoc x y Child); RAssoc (mkAssoc y x Parent)])
    with [mkAssoc x y Child; mkAssoc y x Parent].
  intros [Hin|Hin]%elem_of_app.
  - apply elem_of_app. left.
    apply elem_of_cons in Hin as [->|Hin]; [right; by left|].
    apply list_elem_of_singleton in Hin as ->. by left.
  - apply elem_of_app. right. by apply IH.
Qed.

Lemma resolve_file_assocs bf payloads ancestors st far file_md :
  last payloads = Some far → consolidate payloads = Some file_md →
  ∃ st' added,
    resolve_file bf payloads ancestors st = Some st'
    ∧ Session.records (md_session st')
      = Session.records (md_session st) ++ added
    ∧ assocs_of added
      = [mkAssoc far.2 (bf_path bf) Metadata;
         mkAssoc (bf_path bf) far.2 Metadata]
        ++ assocs_of (chain payloads.*2) ++ assocs_of (chain ancestors)
    ∧ (length (s_new (md_session st')) < 1000)%nat.
Proof.
  intros Hlast Hmd. unfold resolve_file. rewrite Hlast, Hmd. simpl.
  set (s3 := Session.add_all (chain ancestors) _).
  destruct (fold_metadata_tags_spec bf file_md (mkMd s3 (all_entities st)))
    as (tagrecs & Hr & _ & Ha & _). simpl in *.
  set (st1 := foldl (add_metadata_tag bf) _ file_md) in *.
  eexists. exists ([RAssoc (mkAssoc far.2 (bf_path bf) Metadata);
                    RAssoc (mkAssoc (bf_path bf) far.2 Metadata)]
                   ++ chain payloads.*2 ++ chain ancestors ++ tagrecs).
  split_and!.
  - done.
  - assert (Session.records (md_session st1)
            = Session.records (md_session st)
              ++ [RAssoc (mkAssoc far.2 (bf_path bf) Metadata);
                  RAssoc (mkAssoc (bf_path bf) far.2 Metadata)]
              ++ chain payloads.*2 ++ chain ancestors ++ tagrecs) as Hrec.
    { rewrite Hr. unfold s3. rewrite !records_add_all.
      by rewrite <- !app_assoc. }
    case_bool_decide; simpl; [by rewrite records_commit|done].
  - rewrite !assocs_of_app, Ha, app_nil_r. done.
  - case_bool_decide; simpl; lia.
Qed.

(** X20: the associations recorded for a file come in pairs: together with
    each edge the records added for the file contain the edge in the other
    direction, [Metadata] for [Metadata] and [Parent] for [Child]. *)
Theorem X20_associations_recorded_in_both_directions
    (bf : BIDSFile) (payloads : list (option (Dict.t pyval) * string))
    (ancestors : list string) (st st' : md_state) (added : list dbrecord)
    (a : FileAssociation) :
  resolve_file bf payloads ancestors st = Some st' →
  Session.records (md_session st')
  = Session.records (md_session st) ++ added →
  a ∈ assocs_of added → converse a ∈ assocs_of added.
Proof.
  intros Hres Hadded Ha.
  destruct (last payloads) as [far|] eqn:Hlast.
  - destruct (consolidate payloads) as [md|] eqn:Hmd.
    + destruct (resolve_file_assocs bf payloads ancestors st far md Hlast Hmd)
        as (st1 & added1 & Hres1 & Hadded1 & Hassocs & _).
      rewrite Hres in Hres1. injection Hres1 as <-.
      rewrite Hadded in Hadded1. apply app_inv_head in Hadded1 as <-.
      rewrite Hassocs in *.
      apply elem_of_app in Ha as [Ha|Ha].
      { apply elem_of_app. left.
        apply elem_of_cons in Ha as [->|Ha]; [right; by left|].
        apply list_elem_of_singleton in Ha as ->. by left. }
      apply elem_of_app. right.
      apply elem_of_app in Ha as [Ha|Ha]; apply elem_of_app;
        [left|right]; by apply chain_converse.
    + unfold resolve_file in Hres. by rewrite Hlast, Hmd in Hres.
  - apply last_None in Hlast as ->. injection Hres as <-.
    rewrite <- (app_nil_r (Session.records (md_session st))) in Hadded at 1.
    apply app_inv_head in Hadded as <-. by apply elem_of_nil in Ha.
Qed.

Lemma X20_associations_recorded_in_both_directions_witness :
  ∃ st' added,
    resolve_file Fixture.bold_nii Fixture.bold_payloads
      ["/ds/sub/x_bold.nii"] Fixture.bold_state = Some st'
    ∧ Session.records (md_session st')
      = Session.records (md_session Fixture.bold_state) ++ added
    ∧ mkAssoc "/ds/sub/bold.json" "/ds/bold.json" Child ∈ assocs_of added.
Proof.
  destruct (resolve_file Fixture.bold_nii Fixture.bold_payloads
              ["/ds/sub/x_bold.nii"] Fixture.bold_state) as [st'|] eqn:Hres;
    [|vm_compute in Hres; discriminate].
  exists st', (drop (length (Session.records (md_session Fixture.bold_state)))
                    (Session.records (md_session st'))).
  assert (Session.records (md_session st')
          = Session.records (md_session Fixture.bold_state)
            ++ drop (length (Session.records (md_session Fixture.bold_state)))
                    (Session.records (md_session st'))) as Hadded.
  { pose proof Hres as H. vm_compute in H. injection H as <-.
    vm_compute. reflexivity. }
  split; [reflexivity|]. split; [exact Hadded|].
  apply (X20_associations_recorded_in_both_directions Fixture.bold_nii
           Fixture.bold_payloads ["/ds/sub/x_bold.nii"] Fixture.bold_state
           st' _ (mkAssoc "/ds/bold.json" "/ds/sub/bold.json" Parent)
           Hres Hadded).
  pose proof Hres as H. vm_compute in H. injection H as <-.
  apply list_elem_of_lookup. exists 3%nat. vm_compute. reflexivity.
Defined.

Lemma process_file_pending file_data st bf st' :
  process_file file_data st bf = Some st' →
  (length (s_new (md_session st)) < 1000)%nat →
  (length (s_new (md_session st')) < 1000)%nat.
Proof.
  unfold process_file. intros Hstep Hst.
  destruct (ancestry file_data bf) as [[payloads ancestors]|];
    [|by injection Hstep as <-]. simpl in Hstep.
  destruct (last payloads) as [far|] eqn:Hlast.
  - destruct (consolidate payloads) as [md|] eqn:Hmd.
    + destruct (resolve_file_assocs bf payloads ancestors st far md Hlast Hmd)
        as (st1 & added & Hres & _ & _ & Hlen).
      rewrite Hres in Hstep. by injection Hstep as <-.
    + unfold resolve_file in Hstep. by rewrite Hlast, Hmd in Hstep.
  - apply last_None in Hlast as ->. by injection Hstep as <-.
Qed.

(** X21: the pass flushes in batches: if fewer than 1000 records are pending
    when it starts (none are, after the walk), fewer than 1000 are pending
    after every file it has processed, since a file that brings the count to
    the threshold commits before the next one is taken. *)
Theorem X21_pending_records_stay_below_the_threshold
    (file_data : gmap string (gmap string (list fd_entry)))
    (filenames : list BIDSFile) (st st' : md_state) :
  process_files file_data st filenames = Some st' →
  (length (s_new (md_session st)) < 1000)%nat →
  (length (s_new (md_session st')) < 1000)%nat.
Proof.
  revert st. induction filenames as [|bf filenames IH]; intros st Hrun Hst.
  - by injection Hrun as <-.
  - rewrite process_files_cons in Hrun.
    destruct (process_file file_data st bf) as [st1|] eqn:Hstep; [|done].
    simpl in Hrun. apply (IH st1 Hrun).
    by eapply process_file_pending.
Qed.

Lemma X21_pending_records_stay_below_the_threshold_witness :
  ∃ st', process_files Fixture.bold_data Fixture.bold_state
           [Fixture.bold_nii; Fixture.bold_twin] = Some st'
         ∧ (length (s_new (md_session st')) < 1000)%nat.
Proof.
  destruct (process_files Fixture.bold_data Fixture.bold_state
              [Fixture.bold_nii; Fixture.bold_twin]) as [st'|] eqn:Hrun;
    [|vm_compute in Hrun; discriminate].
  exists st'. split; [reflexivity|].
  apply (X21_pending_records_stay_below_the_threshold Fixture.bold_data
           [Fixture.bold_nii; Fixture.bold_twin] Fixture.bold_state st' Hrun).
  vm_compute. lia.
Defined.

Lemma consolidate_nodup payloads file_md :
  consolidate payloads = Some file_md → NoDup (Dict.keys file_md).
Proof.
  revert file_md. induction payloads as [|p payloads IH]; intros md.
  - intros [= <-]. constructor.
  - rewrite consolidate_cons.
    destruct (consolidate payloads) as [md0|]; [|done]. simpl.
    destruct p.1 as [pl|]; [|done]. simpl. intros [= <-].
    apply dict_update_nodup. by apply IH.
Qed.

Lemma entity_for_well_keyed R k :
  well_keyed R → ent_name (entity_for R k) = k.
Proof.
  intros HR. unfold entity_for. destruct (R !! k) as [e|] eqn:He; [|done].
  simpl. by apply HR.
Qed.

Lemma registry_grows_well_keyed R R' created :
  registry_grows R R' created → well_keyed R → well_keyed R'.
Proof.
  intros (Hsub & Hnew & _) HR k e He.
  destruct (R !! k) as [e0|] eqn:H0.
  - pose proof (lookup_weaken _ _ _ _ H0 Hsub). simplify_eq. by apply HR.
  - by destruct (Hnew k e H0 He) as [-> _].
Qed.

(** X22: if every key of the registry is the name of the entity it holds (as
    for configurations keyed by entity name), this is still so after the
    pass, and the tags the pass adds for any one file carry pairwise distinct
    entity names: within the pass a file never gets two tags for one
    entity. *)
Theorem X22_metadata_tags_distinct_per_file
    (file_data : gmap string (gmap string (list fd_entry)))
    (filenames : list BIDSFile) (st st' : md_state) :
  process_files file_data st filenames = Some st' →
  well_keyed (all_entities st) →
  well_keyed (all_entities st')
  ∧ ∀ bf, NoDup ((fun t => ent_name (tag_entity t))
                 <$> file_tags file_data (all_entities st) bf).
Proof.
  intros Hrun HR.
  destruct (process_files_grows _ _ _ _ Hrun) as (added & _ & _ & Hg & _).
  split; [by eapply registry_grows_well_keyed|].
  intros bf. unfold file_tags.
  destruct (file_metadata file_data bf) as [md|] eqn:Hmd; [|constructor].
  simpl. unfold metadata_tags. rewrite <- list_fmap_compose.
  assert ((fun t => ent_name (tag_entity t))
          ∘ (fun kv : string * pyval =>
               mkTag (bf_path bf) (entity_for (all_entities st) kv.1) kv.2 None)
          <$> md = Dict.keys md) as ->.
  { unfold Dict.keys. apply list_fmap_ext. intros i kv _. simpl.
    by apply entity_for_well_keyed. }
  unfold file_metadata in Hmd.
  destruct (ancestry file_data bf) as [pa|]; [|done]. simpl in Hmd.
  by eapply consolidate_nodup.
Qed.

Lemma X22_metadata_tags_distinct_per_file_witness :
  NoDup ((fun t => ent_name (tag_entity t))
         <$> file_tags Fixture.bold_data (all_entities Fixture.bold_state)
                       Fixture.bold_nii).
Proof.
  destruct (process_files Fixture.bold_data Fixture.bold_state
              [Fixture.bold_nii; Fixture.bold_twin]) as [st'|] eqn:Hrun;
    [|vm_compute in Hrun; discriminate].
  apply (X22_metadata_tags_distinct_per_file Fixture.bold_data
           [Fixture.bold_nii; Fixture.bold_twin] Fixture.bold_state st' Hrun).
  intros k e Hk. vm_compute in Hk.
  destruct (decide (k = "suffix")) as [->|Hs].
  { vm_compute in Hk. by injection Hk as <-. }
  destruct (decide (k = "extension")) as [->|He].
  { vm_compute in Hk. by injection Hk as <-. }
  exfalso. revert Hk. change (all_entities Fixture.bold_state !! k ≠ Some e).
  unfold Fixture.bold_state, initial_entities. simpl.
  rewrite !lookup_insert_ne by done. by rewrite lookup_empty.
Defined.

(** X23: the metadata pass only adds to the session: when it returns,
    nothing is pending, the stored records begin with every record the
    session held before in the same order, and none of the records it added
    is a File record. *)
Theorem X23_metadata_pass_only_appends
    (L : Layout) (X : Externals) (all_files : list BIDSFile)
    (s s' : session) :
  _index_metadata L X all_files s = Some s' →
  s_new s' = []
  ∧ ∃ added, s_stored s' = Session.records s ++ added ∧ files_of added = [].
Proof.
  unfold _index_metadata. intros Hrun.
  destruct (build_file_data X all_files) as [file_data|]; [|done].
  simpl in Hrun.
  destruct (process_files _ _ _) as [st|] eqn:Hpass; [|done].
  injection Hrun as <-.
  destruct (process_files_grows _ _ _ _ Hpass) as (added & Hr & Hf & _).
  split; [done|]. exists added. split; [|done]. exact Hr.
Qed.

Lemma X23_metadata_pass_only_appends_witness :
  ∃ s', _index_metadata Fixture.bold_layout Fixture.bold_ext
          Fixture.bold_files (md_session Fixture.bold_state) = Some s'
        ∧ s_new s' = [].
Proof.
  destruct (_index_metadata Fixture.bold_layout Fixture.bold_ext
              Fixture.bold_files (md_session Fixture.bold_state))
    as [s'|] eqn:Hrun; [|vm_compute in Hrun; discriminate].
  exists s'. split; [reflexivity|].
  apply (X23_metadata_pass_only_appends Fixture.bold_layout Fixture.bold_ext
           Fixture.bold_files (md_session Fixture.bold_state) s' Hrun).
Defined.
